(** * BaseSoundManager: a shallow embedding of src/v3/src/sound/BaseSoundManager.js

    The manager is a JavaScript class whose methods mutate the manager
    object, the sound objects it holds references to, and the event
    channels of the game and of each sound.  The embedding keeps an
    explicit store: sounds live in a heap indexed by object identity, the
    registry [this.sounds] is a list of references into that heap, and
    every call that leaves the manager (a method of a sound, a dispatch on
    an event channel, an overridable hook) is appended to a trace.  Methods
    are computations in a state-and-exception monad; the exception is the
    [TypeError] that JavaScript raises on a property access through [null]
    or [undefined]. *)

From Stdlib Require Import Floats.
From stdpp Require Import base option list gmap strings.

Set Default Proof Using "Type".
Open Scope string_scope.
Open Scope list_scope.

(** ** JavaScript values *)

(** The values that travel through the manager untouched: configs, marker
    descriptors, rate and detune settings, timestamps. *)
#[warnings="-register-all"]
Inductive value : Type :=
| VUndefined
| VNull
| VBool (b : bool)
| VNumber (x : float)
| VString (s : string)
| VObject (props : list (string * value)).

(** [ToBoolean]: what an [if (v)] tests. *)
Definition truthy (v : value) : bool :=
  match v with
  | VUndefined | VNull => false
  | VBool b => b
  | VNumber x => negb (PrimFloat.eqb x 0%float || negb (PrimFloat.eqb x x))
  | VString s => negb (String.eqb s "")
  | VObject _ => true
  end.

Fixpoint assoc (p : string) (props : list (string * value)) : option value :=
  match props with
  | [] => None
  | (q, v) :: rest => if String.eqb q p then Some v else assoc p rest
  end.

(** [v.p] on a value that is neither [null] nor [undefined]; a property
    that is not there reads as [undefined]. *)
Definition get_prop (v : value) (p : string) : value :=
  match v with
  | VObject props => default VUndefined (assoc p props)
  | _ => VUndefined
  end.

(** [v] is an object with a property called [p]. *)
Definition has_prop (v : value) (p : string) : bool :=
  match v with
  | VObject props => bool_decide (is_Some (assoc p props))
  | _ => false
  end.

(** ** The objects the manager works with *)

(** Object identity of a sound. *)
Definition ref := nat.

(** One enumerable property of a [spritemap] object, as the [for .. in] of
    [addAudioSprite] sees it: its name, whether [hasOwnProperty] holds for
    it, and the [start] and [end] offsets of the clip. *)
Record sprite : Type := Sprite {
  sprite_name : string;
  sprite_own : bool;
  sprite_start : float;
  sprite_end : float
}.

(** What the manager reads and writes on a sound ([key], [pendingRemove],
    [spritemap]); [fields] stands for every other property of the object,
    private to the backend. *)
Record Sound : Type := mkSound {
  key : string;
  pendingRemove : bool;
  spritemap : option (list sprite);
  fields : list (string * value)
}.

(** The methods of a sound that the manager calls, with their arguments. *)
Inductive call : Type :=
| CPlay (args : list value)
| CPause
| CResume
| CStop
| CDestroy
| CUpdate (time delta : value)
| CSetRate
| CAddMarker (marker : value).

(** [sound.destroy.bind(sound)], the only listener the manager puts on a
    sound's own event channel. *)
Inductive sound_handler : Type :=
| HDestroy (r : ref).

(** The two closures the constructor subscribes on [game.events]. *)
Inductive game_handler : Type :=
| HBlur
| HFocus.

(** The parsed JSON file of an audio sprite. *)
Record json_entry : Type := JsonEntry {
  entry_spritemap : option (list sprite)
}.

(** The game: the listeners on [game.events], in subscription order, and
    [game.cache.json]. *)
Record Game : Type := mkGame {
  game_listeners : list (string * game_handler);
  cache_json : gmap string json_entry
}.

Inductive game_handle : Type := TheGame.
Inductive dispatcher : Type := EventDispatcher.

(** The fields of the manager object.  [None] is [null] (or not yet
    assigned). *)
Record Manager : Type := mkManager {
  game : option game_handle;
  events : option dispatcher;
  sounds : option (list ref);
  mute : value;
  volume : value;
  pauseOnBlur : value;
  _rate : value;
  _detune : value
}.

Inductive manager_event : Type :=
| SoundEvent (name : string)
| SoundValueEvent (name : string) (v : value).

(** Everything the manager does to the outside, in the order it does it. *)
Inductive event : Type :=
| EAdd (k : string) (config : value) (r : ref)
| ECall (r : ref) (c : call)
| EOnce (r : ref) (name : string) (h : sound_handler)
| EDispatch (e : manager_event)
| EEventsDestroy
| EOnBlur
| EOnFocus.

Record World : Type := mkWorld {
  host : Game;
  mgr : Manager;
  heap : gmap ref Sound;
  channels : gmap ref (list (string * sound_handler));
  trace : list event
}.

(** The sound backend, which is not part of this file: how a new sound's
    private fields are filled in, and what each method does to the sound
    it is called on.  A method sees the manager (it reads the global rate
    and detune) and changes nothing but its own sound. *)
Record Backend : Type := mkBackend {
  new_fields : Manager -> string -> value -> list (string * value);
  hook : Manager -> call -> Sound -> Sound
}.

(** ** State and exceptions *)

Inductive error : Type := TypeError.

Inductive result (A : Type) : Type :=
| Ok (a : A)
| Throw (e : error).
Arguments Ok {A} a.
Arguments Throw {A} e.

Definition M (A : Type) : Type := World -> result A * World.

Definition ret {A} (a : A) : M A := fun w => (Ok a, w).

Definition bind {A B} (m : M A) (f : A -> M B) : M B :=
  fun w => match m w with
           | (Ok a, w') => f a w'
           | (Throw e, w') => (Throw e, w')
           end.

Definition throw {A} (e : error) : M A := fun w => (Throw e, w).

Notation "'let*' x ':=' m 'in' k" := (bind m (fun x => k))
  (at level 10, x name, m at level 100, k at level 200, only parsing).
Notation "m ';;' k" := (bind m (fun _ => k))
  (at level 100, k at level 200, right associativity, only parsing).

Definition this : M Manager := fun w => (Ok (mgr w), w).

Definition set_mgr (m : Manager) : M unit :=
  fun w => (Ok tt, mkWorld (host w) m (heap w) (channels w) (trace w)).

Definition set_app (g : Game) : M unit :=
  fun w => (Ok tt, mkWorld g (mgr w) (heap w) (channels w) (trace w)).

Definition set_heap (h : gmap ref Sound) : M unit :=
  fun w => (Ok tt, mkWorld (host w) (mgr w) h (channels w) (trace w)).

Definition set_channels (c : gmap ref (list (string * sound_handler))) : M unit :=
  fun w => (Ok tt, mkWorld (host w) (mgr w) (heap w) c (trace w)).

Definition log (e : event) : M unit :=
  fun w => (Ok tt, mkWorld (host w) (mgr w) (heap w) (channels w) (trace w ++ [e])).

(** [x.p] where [x] may be [null]. *)
Definition unnull {A} (o : option A) : M A :=
  match o with
  | Some a => ret a
  | None => throw TypeError
  end.

Definition with_game (g : option game_handle) (m : Manager) : Manager :=
  mkManager g (events m) (sounds m) (mute m) (volume m) (pauseOnBlur m) (_rate m) (_detune m).
Definition with_events (e : option dispatcher) (m : Manager) : Manager :=
  mkManager (game m) e (sounds m) (mute m) (volume m) (pauseOnBlur m) (_rate m) (_detune m).
Definition with_sounds (l : option (list ref)) (m : Manager) : Manager :=
  mkManager (game m) (events m) l (mute m) (volume m) (pauseOnBlur m) (_rate m) (_detune m).
Definition with_mute (v : value) (m : Manager) : Manager :=
  mkManager (game m) (events m) (sounds m) v (volume m) (pauseOnBlur m) (_rate m) (_detune m).
Definition with_volume (v : value) (m : Manager) : Manager :=
  mkManager (game m) (events m) (sounds m) (mute m) v (pauseOnBlur m) (_rate m) (_detune m).
Definition with_pauseOnBlur (v : value) (m : Manager) : Manager :=
  mkManager (game m) (events m) (sounds m) (mute m) (volume m) v (_rate m) (_detune m).
Definition with_rate (v : value) (m : Manager) : Manager :=
  mkManager (game m) (events m) (sounds m) (mute m) (volume m) (pauseOnBlur m) v (_detune m).
Definition with_detune (v : value) (m : Manager) : Manager :=
  mkManager (game m) (events m) (sounds m) (mute m) (volume m) (pauseOnBlur m) (_rate m) v.

(** [this.f = v] for a plain field. *)
Definition assign (f : Manager -> Manager) : M unit :=
  let* m := this in set_mgr (f m).

(** [this.sounds], as an array. *)
Definition get_sounds : M (list ref) :=
  let* m := this in unnull (sounds m).

(** The object a reference points to. *)
Definition deref (r : ref) : M Sound :=
  fun w => match heap w !! r with
           | Some s => (Ok s, w)
           | None => (Throw TypeError, w)
           end.

(** [a[i]] followed by a property access: [undefined] throws. *)
Definition at_index (l : list ref) (i : nat) : M ref := unnull (l !! i).

(** [this.sounds.splice(i, 1)]. *)
Definition splice (i : nat) : M unit :=
  let* l := get_sounds in assign (with_sounds (Some (delete i l))).

(** [a.forEach(f)] for a callback that leaves the array alone, as all the
    callbacks of this file do. *)
Fixpoint forEach (l : list ref) (f : ref -> M unit) : M unit :=
  match l with
  | [] => ret tt
  | r :: l' => f r ;; forEach l' f
  end.

(** [a.indexOf(x)], with [None] for [-1]. *)
Fixpoint indexOf (x : ref) (l : list ref) : option nat :=
  match l with
  | [] => None
  | y :: l' => if Nat.eqb y x then Some 0 else option_map S (indexOf x l')
  end.

(** ** The manager *)

Section Manager.

Context (B : Backend).

(** [sound.m(args)] on the sound behind [r]. *)
Definition invoke (r : ref) (c : call) : M unit :=
  let* m := this in
  let* s := deref r in
  fun w => (Ok tt, mkWorld (host w) (mgr w) (<[r := hook B m c s]> (heap w))
                           (channels w) (trace w ++ [ECall r c])).

(** Modelled from the spec: [EventDispatcher.once] on a sound's own
    [events] channel, which is not part of this file.  The subscription is
    one-shot: it is kept on the channel until the event fires, and fires
    at most once. *)
Definition once (r : ref) (name : string) (h : sound_handler) : M unit :=
  fun w => (Ok tt, mkWorld (host w) (mgr w) (heap w)
                           (<[r := default [] (channels w !! r) ++ [(name, h)]]> (channels w))
                           (trace w ++ [EOnce r name h])).

Definition run_sound_handler (h : sound_handler) : M unit :=
  match h with
  | HDestroy r => invoke r CDestroy
  end.

Fixpoint run_sound_handlers (hs : list (string * sound_handler)) : M unit :=
  match hs with
  | [] => ret tt
  | (_, h) :: hs' => run_sound_handler h ;; run_sound_handlers hs'
  end.

Definition subscribed (name : string) (l : string * sound_handler) : bool :=
  String.eqb (fst l) name.

(** Modelled from the spec: the sound behind [r] signals [name] on its own
    channel.  Every one-shot subscription under that name is taken off the
    channel and run. *)
Definition sound_emit (r : ref) (name : string) : M unit :=
  fun w =>
    let ls := default [] (channels w !! r) in
    run_sound_handlers (List.filter (subscribed name) ls)
      (mkWorld (host w) (mgr w) (heap w)
               (<[r := List.filter (fun l => negb (subscribed name l)) ls]> (channels w))
               (trace w)).

(** [this.events.dispatch(e)]. *)
Definition dispatch (e : manager_event) : M unit :=
  let* m := this in
  let* _ := unnull (events m) in
  log (EDispatch e).

(** [forEachActiveSound(callbackfn)]. *)
Definition forEachActiveSound (callbackfn : ref -> M unit) : M unit :=
  let* l := get_sounds in
  forEach l (fun r =>
    let* s := deref r in
    if pendingRemove s then ret tt else callbackfn r).

(** The setter and getter of [rate]. *)
Definition set_rate (v : value) : M unit :=
  assign (with_rate v) ;;
  forEachActiveSound (fun r => invoke r CSetRate) ;;
  dispatch (SoundValueEvent "SOUND_RATE" v).

Definition get_rate : M value :=
  let* m := this in ret (_rate m).

(** The setter and getter of [detune]. *)
Definition set_detune (v : value) : M unit :=
  assign (with_detune v) ;;
  forEachActiveSound (fun r => invoke r CSetRate) ;;
  dispatch (SoundValueEvent "SOUND_DETUNE" v).

Definition get_detune : M value :=
  let* m := this in ret (_detune m).

(** [onBlur] and [onFocus] are [NOOP] here and overridden by the backend's
    manager; the trace records that they were called. *)
Definition onBlur : M unit := log EOnBlur.
Definition onFocus : M unit := log EOnFocus.

(** The bodies of the two closures of the constructor. *)
Definition run_game_handler (h : game_handler) : M unit :=
  let* m := this in
  match h with
  | HBlur => if truthy (pauseOnBlur m) then onBlur else ret tt
  | HFocus => if truthy (pauseOnBlur m) then onFocus else ret tt
  end.

(** Modelled from the spec: [game.events.on(name, h)], on the game's event
    channel, which is not part of this file. *)
Definition game_on (name : string) (h : game_handler) : M unit :=
  fun w => (Ok tt, mkWorld (mkGame (game_listeners (host w) ++ [(name, h)]) (cache_json (host w)))
                           (mgr w) (heap w) (channels w) (trace w)).

Fixpoint run_game_handlers (name : string) (ls : list (string * game_handler)) : M unit :=
  match ls with
  | [] => ret tt
  | (n, h) :: ls' =>
      (if String.eqb n name then run_game_handler h else ret tt) ;;
      run_game_handlers name ls'
  end.

(** Modelled from the spec: the game signals [name] ([ON_BLUR] or
    [ON_FOCUS]); the listeners under that name run in subscription
    order. *)
Definition game_emit (name : string) : M unit :=
  fun w => run_game_handlers name (game_listeners (host w)) w.

(** The manager object before its constructor has run. *)
Definition blank_manager : Manager :=
  mkManager None None None VUndefined VUndefined VUndefined VUndefined VUndefined.

Definition blank (g : Game) : World := mkWorld g blank_manager ∅ ∅ [].

(** The constructor.  [this.rate = 1] and [this.detune = 0] go through the
    setters. *)
Definition initialize : M unit :=
  assign (with_game (Some TheGame)) ;;
  assign (with_events (Some EventDispatcher)) ;;
  assign (with_sounds (Some [])) ;;
  assign (with_mute (VBool false)) ;;
  assign (with_volume (VNumber 1)) ;;
  set_rate (VNumber 1) ;;
  set_detune (VNumber 0) ;;
  assign (with_pauseOnBlur (VBool true)) ;;
  game_on "ON_BLUR" HBlur ;;
  game_on "ON_FOCUS" HFocus ;;
  assign (with_rate (VNumber 1)) ;;
  assign (with_detune (VNumber 0)).

(** Modelled from the spec: [add], which is [NOOP] here and supplied by
    the backend's manager.  It makes a new sound for the key, puts it at
    the end of the registry and returns it; the trace records the call
    and the sound it made. *)
Definition add (k : string) (config : value) : M ref :=
  let* m := this in
  let* l := unnull (sounds m) in
  fun w =>
    let r := fresh (dom (heap w)) in
    (Ok r, mkWorld (host w) (with_sounds (Some (l ++ [r])) (mgr w))
                   (<[r := mkSound k false None (new_fields B m k config)]> (heap w))
                   (channels w) (trace w ++ [EAdd k config r])).

(** [this.game.cache.json.get(key)]. *)
Definition cache_get (k : string) : M (option json_entry) :=
  let* m := this in
  let* _ := unnull (game m) in
  fun w => (Ok (cache_json (host w) !! k), w).

(** [sound.spritemap = sm]. *)
Definition set_spritemap (r : ref) (sm : option (list sprite)) : M unit :=
  let* s := deref r in
  let* h := (fun w => (Ok (heap w), w)) in
  set_heap (<[r := mkSound (key s) (pendingRemove s) sm (fields s)]> h).

Fixpoint find_sprite (name : string) (sm : list sprite) : option sprite :=
  match sm with
  | [] => None
  | p :: sm' => if String.eqb (sprite_name p) name then Some p else find_sprite name sm'
  end.

(** The object literal handed to [addMarker]. *)
Definition marker_of (name : string) (p : sprite) (config : value) : value :=
  VObject [("name", VString name);
           ("start", VNumber (sprite_start p));
           ("duration", VNumber (PrimFloat.sub (sprite_end p) (sprite_start p)));
           ("config", config)].

(** The body of the [for .. in], run for each enumerated name; it reads
    [sound.spritemap] again each time. *)
Fixpoint add_markers (r : ref) (config : value) (names : list string) : M unit :=
  match names with
  | [] => ret tt
  | name :: names' =>
      let* s := deref r in
      let* sm := unnull (spritemap s) in
      match find_sprite name sm with
      | Some p =>
          if sprite_own p
          then invoke r (CAddMarker (marker_of name p config)) ;; add_markers r config names'
          else add_markers r config names'
      | None => add_markers r config names'
      end
  end.

Definition addAudioSprite (k : string) (config : value) : M ref :=
  let* sound := add k config in
  let* e := cache_get k in
  let* e := unnull e in
  set_spritemap sound (entry_spritemap e) ;;
  let* s := deref sound in
  add_markers sound config (map sprite_name (default [] (spritemap s))) ;;
  ret sound.

Definition play (k : string) (extra : value) : M unit :=
  let* sound := add k VUndefined in
  once sound "SOUND_ENDED" (HDestroy sound) ;;
  if truthy extra then
    if truthy (get_prop extra "name") then
      invoke sound (CAddMarker extra) ;;
      invoke sound (CPlay [get_prop extra "name"])
    else
      invoke sound (CPlay [extra])
  else
    invoke sound (CPlay []).

Definition playAudioSprite (k : string) (spriteName config : value) : M unit :=
  let* sound := addAudioSprite k VUndefined in
  once sound "SOUND_ENDED" (HDestroy sound) ;;
  invoke sound (CPlay [spriteName; config]).

Definition remove (sound : ref) : M bool :=
  let* l := get_sounds in
  match indexOf sound l with
  | Some index =>
      invoke sound CDestroy ;;
      splice index ;;
      ret true
  | None => ret false
  end.

(** The loop of [removeByKey]; [n] is [i + 1]. *)
Fixpoint removeByKey_loop (k : string) (n removed : nat) : M nat :=
  match n with
  | 0 => ret removed
  | S i =>
      let* l := get_sounds in
      let* sound := at_index l i in
      let* s := deref sound in
      if String.eqb (key s) k then
        invoke sound CDestroy ;;
        splice i ;;
        removeByKey_loop k i (S removed)
      else
        removeByKey_loop k i removed
  end.

Definition removeByKey (k : string) : M nat :=
  let* l := get_sounds in
  removeByKey_loop k (length l) 0.

Definition pauseAll : M unit :=
  forEachActiveSound (fun r => invoke r CPause) ;;
  dispatch (SoundEvent "SOUND_PAUSE").

Definition resumeAll : M unit :=
  forEachActiveSound (fun r => invoke r CResume) ;;
  dispatch (SoundEvent "SOUND_RESUME").

Definition stopAll : M unit :=
  forEachActiveSound (fun r => invoke r CStop) ;;
  dispatch (SoundEvent "SOUND_STOP").

(** The first loop of [update]; [n] is [i + 1]. *)
Fixpoint update_reap (n : nat) : M unit :=
  match n with
  | 0 => ret tt
  | S i =>
      let* l := get_sounds in
      let* sound := at_index l i in
      let* s := deref sound in
      (if pendingRemove s then splice i else ret tt) ;;
      update_reap i
  end.

Definition update (time delta : value) : M unit :=
  let* l := get_sounds in
  update_reap (length l) ;;
  let* l' := get_sounds in
  forEach l' (fun r => invoke r (CUpdate time delta)).

Definition destroy : M unit :=
  assign (with_game None) ;;
  (let* m := this in let* _ := unnull (events m) in log EEventsDestroy) ;;
  assign (with_events None) ;;
  forEachActiveSound (fun r => invoke r CDestroy) ;;
  assign (with_sounds None).

(** The heap after method [c] has run on the active sounds of [l]. *)
Fixpoint visit (m : Manager) (c : call) (l : list ref) (h : gmap ref Sound)
  : gmap ref Sound :=
  match l with
  | [] => h
  | r :: l' =>
      visit m c l'
        (match h !! r with
         | Some s => if pendingRemove s then h else <[r := hook B m c s]> h
         | None => h
         end)
  end.

(** [h'] is [h] after method [c] has run, under manager [m], on the
    sounds of [l] whose [pendingRemove] flag is off. *)
Definition ran_on (m : Manager) (c : call) (l : list ref) (h h' : gmap ref Sound) : Prop :=
  (forall r s, r ∈ l -> h !! r = Some s ->
     h' !! r = Some (if pendingRemove s then s else hook B m c s))
  /\ (forall r, r ∉ l -> h' !! r = h !! r).

(** [destroy] has run on the sound behind [r], on the state it had in
    heap [h], while [r] was still in the registry. *)
Definition destroyed_in (m : Manager) (h h' : gmap ref Sound) (r : ref) : Prop :=
  exists s l0, h !! r = Some s /\ r ∈ l0
    /\ h' !! r = Some (hook B (with_sounds (Some l0) m) CDestroy s).

End Manager.

(** ** Reading a world *)

(** The sound behind [r] is there and its [pendingRemove] flag is off. *)
Definition active (h : gmap ref Sound) (r : ref) : bool :=
  match h !! r with
  | Some s => negb (pendingRemove s)
  | None => false
  end.

(** The sound behind [r] is there and its key is [k]. *)
Definition keyed (k : string) (h : gmap ref Sound) (r : ref) : bool :=
  match h !! r with
  | Some s => String.eqb (key s) k
  | None => false
  end.

(** The registry of a live manager: an array of distinct sounds. *)
Definition registry (w : World) (l : list ref) : Prop :=
  sounds (mgr w) = Some l /\ NoDup l /\ Forall (fun r => is_Some (heap w !! r)) l.

(** The calls of method [c] made on the sounds of [l], in the order of
    [l]. *)
Definition calls (c : call) (l : list ref) : list event :=
  map (fun r => ECall r c) l.

(** What [play] does after [add] and [once], by the shape of [extra]. *)
Definition play_calls (r : ref) (extra : value) : list event :=
  if truthy extra then
    if truthy (get_prop extra "name")
    then [ECall r (CAddMarker extra); ECall r (CPlay [get_prop extra "name"])]
    else [ECall r (CPlay [extra])]
  else [ECall r (CPlay [])].





(** The world a computation leaves behind. *)
Definition exec {A} (m : M A) (w : World) : World := snd (m w).

(** ** Sequences of operations *)

(** What can happen to a manager between its construction and its
    destruction: a call of one of its methods, an assignment to [rate],
    [detune] or [pauseOnBlur], the sound behind [r] signalling
    [SOUND_ENDED] ([OpEnded r]), the game signalling [ON_BLUR] or
    [ON_FOCUS]. *)
Inductive op : Type :=
| OpAdd (k : string) (config : value)
| OpAddAudioSprite (k : string) (config : value)
| OpPlay (k : string) (extra : value)
| OpPlayAudioSprite (k : string) (spriteName config : value)
| OpRemove (sound : ref)
| OpRemoveByKey (k : string)
| OpPauseAll
| OpResumeAll
| OpStopAll
| OpSetRate (v : value)
| OpSetDetune (v : value)
| OpSetPauseOnBlur (v : value)
| OpUpdate (time delta : value)
| OpEnded (sound : ref)
| OpBlur
| OpFocus.

(** The sounds taken out so far: by [remove] and [removeByKey], and by
    [update]. *)
Record tally : Type := Tally {
  removed : nat;
  reaped : nat
}.

Definition registered (w : World) : list ref := default [] (sounds (mgr w)).

Definition is_add (e : event) : bool :=
  match e with
  | EAdd _ _ _ => true
  | _ => false
  end.

(** The number of sounds [add] has made. *)
Definition count_adds (t : list event) : nat := length (List.filter is_add t).

Definition step (B : Backend) (o : op) (st : World * tally) : World * tally :=
  let (w, c) := st in
  match o with
  | OpAdd k config => (exec (add B k config) w, c)
  | OpAddAudioSprite k config => (exec (addAudioSprite B k config) w, c)
  | OpPlay k extra => (exec (play B k extra) w, c)
  | OpPlayAudioSprite k spriteName config =>
      (exec (playAudioSprite B k spriteName config) w, c)
  | OpPauseAll => (exec (pauseAll B) w, c)
  | OpResumeAll => (exec (resumeAll B) w, c)
  | OpStopAll => (exec (stopAll B) w, c)
  | OpSetRate v => (exec (set_rate B v) w, c)
  | OpSetDetune v => (exec (set_detune B v) w, c)
  | OpSetPauseOnBlur v => (exec (assign (with_pauseOnBlur v)) w, c)
  | OpBlur => (exec (game_emit "ON_BLUR") w, c)
  | OpFocus => (exec (game_emit "ON_FOCUS") w, c)
  | OpRemove sound =>
      let (res, w') := remove B sound w in
      (w', Tally (removed c + match res with Ok true => 1 | _ => 0 end) (reaped c))
  | OpRemoveByKey k =>
      let (res, w') := removeByKey B k w in
      (w', Tally (removed c + match res with Ok n => n | _ => 0 end) (reaped c))
  | OpUpdate time delta =>
      (exec (update B time delta) w,
       Tally (removed c)
             (reaped c + length (List.filter (fun r => negb (active (heap w) r))
                                             (registered w))))
  | OpEnded sound => (exec (sound_emit B sound "SOUND_ENDED") w, c)
  end.

Definition run (B : Backend) (ops : list op) (st : World * tally) : World * tally :=
  foldl (fun st o => step B o st) st ops.

(** How operation [o], leading from [w] to [w'], took [r] out of the
    registry: [remove] and [removeByKey] called [destroy] on it; [update]
    found its flag set and called nothing on it; the others take nothing
    out. *)
Definition taken_out (o : op) (w w' : World) (r : ref) : Prop :=
  match o with
  | OpRemove _ | OpRemoveByKey _ =>
      exists t, trace w' = trace w ++ t /\ ECall r CDestroy ∈ t
  | OpUpdate _ _ =>
      active (heap w) r = false
      /\ exists t, trace w' = trace w ++ t /\ forall c, ECall r c ∉ t
  | _ => False
  end.

(** From [w] to [w'] the game and the manager's references to the game
    and to its event channel stayed as they were. *)
Definition steady (w w' : World) : Prop :=
  host w' = host w
  /\ game (mgr w') = game (mgr w)
  /\ events (mgr w') = events (mgr w).

(** From [w] to [w'], moreover, the registry stayed as it was, no sound
    went away from the heap, and [add] made no sound. *)
Definition quiet (w w' : World) : Prop :=
  steady w w'
  /\ sounds (mgr w') = sounds (mgr w)
  /\ (forall x, is_Some (heap w !! x) -> is_Some (heap w' !! x))
  /\ exists t, trace w' = trace w ++ t /\ count_adds t = 0.

(** A computation that is quiet wherever it runs and however it ends. *)
Definition calm {A} (m : M A) : Prop := forall w, quiet w (exec m w).

(** ** A sample backend and sample worlds *)

Definition flagged (s : Sound) : Sound :=
  mkSound (key s) true (spritemap s) (fields s).

(** A backend whose [destroy] raises [pendingRemove], whose [setRate]
    writes down the global rate and detune it read, and whose sounds
    keyed ["gone"] find their resource gone at the next [update]. *)
Definition demo_backend : Backend :=
  mkBackend
    (fun _ _ config => [("config", config)])
    (fun m c s =>
       match c with
       | CDestroy => flagged s
       | CUpdate _ _ => if String.eqb (key s) "gone" then flagged s else s
       | CSetRate =>
           mkSound (key s) (pendingRemove s) (spritemap s)
                   (("rate", _rate m) :: ("detune", _detune m) :: fields s)
       | _ => s
       end).

Definition demo_game : Game :=
  mkGame []
    {[ "sfx" := JsonEntry (Some [Sprite "jump" true 0 1.5; Sprite "toString" false 0 0;
                                 Sprite "land" true 2 2.25]) ]}.

Definition demo_new : World := exec (initialize demo_backend) (blank demo_game).

(** Three sounds, none flagged yet. *)
Definition demo_added : World :=
  exec (add demo_backend "a" VUndefined ;;
        add demo_backend "gone" VUndefined ;;
        add demo_backend "b" VUndefined) demo_new.

(** Two active sounds around one that has flagged itself. *)
Definition demo_world : World :=
  exec (add demo_backend "a" VUndefined ;;
        add demo_backend "gone" VUndefined ;;
        add demo_backend "b" VUndefined ;;
        update demo_backend (VNumber 0) (VNumber 16)) demo_new.
(** Runs the monadic plumbing of a goal as far as the next lookup. *)
Ltac mrun :=
  cbv beta iota zeta delta
    [bind ret throw this get_sounds deref at_index unnull splice assign set_mgr
     set_heap invoke log dispatch once];
  simpl.

Section Proofs.

Context (B : Backend).

Lemma visit_other m c l : forall h r, r ∉ l -> visit B m c l h !! r = h !! r.
Proof.
  induction l as [|x l IH]; intros h r Hr; simpl; [done|].
  apply not_elem_of_cons in Hr as [Hx Hl].
  rewrite IH by done.
  destruct (h !! x) as [s|]; [|done].
  destruct (pendingRemove s); [done|].
  by rewrite lookup_insert_ne.
Qed.

Lemma visit_here m c l : forall h r s,
  NoDup l -> r ∈ l -> h !! r = Some s ->
  visit B m c l h !! r = Some (if pendingRemove s then s else hook B m c s).
Proof.
  induction l as [|x l IH]; intros h r s Hnd Hr Hs; [by apply elem_of_nil in Hr|].
  apply NoDup_cons in Hnd as [Hx Hnd].
  simpl. destruct (decide (r = x)) as [->|Hne].
  - rewrite visit_other by done. rewrite Hs.
    destruct (pendingRemove s); [done|]. by rewrite lookup_insert_eq.
  - apply elem_of_cons in Hr as [?|Hr]; [done|].
    apply IH; [done..|].
    destruct (h !! x) as [sx|]; [|done].
    destruct (pendingRemove sx); [done|]. by rewrite lookup_insert_ne.
Qed.

Lemma active_insert_ne h r x s : r <> x -> active (<[x := s]> h) r = active h r.
Proof. intros. unfold active. by rewrite lookup_insert_ne. Qed.

Lemma filter_active_insert h x s l :
  x ∉ l -> List.filter (active (<[x := s]> h)) l = List.filter (active h) l.
Proof.
  intros Hx. apply List.filter_ext_in. intros r Hr.
  apply active_insert_ne. intros ->. apply Hx. by apply list_elem_of_In.
Qed.

Lemma is_Some_insert (h : gmap ref Sound) x s r :
  is_Some (h !! r) -> is_Some (<[x := s]> h !! r).
Proof.
  intros. destruct (decide (r = x)) as [->|]; [by rewrite lookup_insert_eq|].
  by rewrite lookup_insert_ne.
Qed.

Lemma Forall_is_Some_insert (h : gmap ref Sound) x s (l : list ref) :
  Forall (fun r => is_Some (h !! r)) l ->
  Forall (fun r => is_Some (<[x := s]> h !! r)) l.
Proof.
  intros H. eapply Forall_impl; [exact H|]. intros r Hr. simpl.
  destruct (decide (r = x)) as [->|]; [by rewrite lookup_insert_eq|by rewrite lookup_insert_ne].
Qed.

(** The loop of [forEachActiveSound]: the callback's method runs on the
    active sounds, in order, and on nothing else. *)
Lemma forEach_active_run c l : forall w,
  NoDup l -> Forall (fun r => is_Some (heap w !! r)) l ->
  forEach l (fun r => let* s := deref r in
                      if pendingRemove s then ret tt else invoke B r c) w
  = (Ok tt, mkWorld (host w) (mgr w) (visit B (mgr w) c l (heap w)) (channels w)
                    (trace w ++ calls c (List.filter (active (heap w)) l))).
Proof.
  induction l as [|r l IH]; intros w Hnd Hall.
  - simpl. unfold ret, calls. simpl. rewrite app_nil_r. by destruct w.
  - apply NoDup_cons in Hnd as [Hr Hnd].
    apply Forall_cons in Hall as [[s Hs] Hall].
    simpl. unfold bind at 1. unfold bind at 1, deref. rewrite Hs.
    unfold active at 1. rewrite Hs.
    destruct (pendingRemove s) eqn:Hp; simpl.
    + unfold ret at 1. by rewrite IH.
    + unfold invoke, bind, this, deref. simpl. rewrite Hs.
      rewrite IH; simpl; [|done|by apply Forall_is_Some_insert].
      rewrite filter_active_insert by done.
      by rewrite <- app_assoc.
Qed.

Lemma forEachActiveSound_run c w l :
  registry w l ->
  forEachActiveSound (fun r => invoke B r c) w
  = (Ok tt, mkWorld (host w) (mgr w) (visit B (mgr w) c l (heap w)) (channels w)
                    (trace w ++ calls c (List.filter (active (heap w)) l))).
Proof.
  intros (Hl & Hnd & Hall).
  unfold forEachActiveSound, get_sounds, bind at 1, bind at 1, this. rewrite Hl. simpl.
  by apply forEach_active_run.
Qed.

Lemma visit_ran_on m c l h : NoDup l -> ran_on B m c l h (visit B m c l h).
Proof.
  intros Hnd. split.
  - intros r s. by apply visit_here.
  - intros r. apply visit_other.
Qed.

(** A bulk operation: the method on every active sound, then one event. *)
Lemma bulk_run c e w l :
  registry w l -> is_Some (events (mgr w)) ->
  (forEachActiveSound (fun r => invoke B r c) ;; dispatch e) w
  = (Ok tt, mkWorld (host w) (mgr w) (visit B (mgr w) c l (heap w)) (channels w)
                    (trace w ++ calls c (List.filter (active (heap w)) l) ++ [EDispatch e])).
Proof.
  intros Hreg [d Hd]. unfold bind at 1.
  rewrite (forEachActiveSound_run c w l Hreg).
  unfold dispatch, bind, this, unnull, log. simpl. rewrite Hd. simpl.
  by rewrite <- app_assoc.
Qed.

Lemma registry_assign f w l :
  sounds (f (mgr w)) = sounds (mgr w) ->
  registry w l -> registry (mkWorld (host w) (f (mgr w)) (heap w) (channels w) (trace w)) l.
Proof. intros Hf (Hl & ? & ?). split; [|done]. simpl. by rewrite Hf. Qed.

Lemma setter_run (f : value -> Manager -> Manager) name v w l :
  (forall m, sounds (f v m) = sounds m) -> (forall m, events (f v m) = events m) ->
  registry w l -> is_Some (events (mgr w)) ->
  (assign (f v) ;; forEachActiveSound (fun r => invoke B r CSetRate) ;;
   dispatch (SoundValueEvent name v)) w
  = (Ok tt, mkWorld (host w) (f v (mgr w)) (visit B (f v (mgr w)) CSetRate l (heap w))
                    (channels w)
                    (trace w ++ calls CSetRate (List.filter (active (heap w)) l)
                             ++ [EDispatch (SoundValueEvent name v)])).
Proof.
  intros Hs He Hreg Hev. unfold bind at 1. unfold assign, bind at 1, this, set_mgr.
  erewrite bulk_run; [done| |].
  - by apply (registry_assign (f v)).
  - simpl. by rewrite He.
Qed.

(** C1: writing [rate] (and likewise [detune]) stores the value, so that
    reading the property gives it back; then calls [setRate] on the
    registered sounds whose [pendingRemove] flag is off, in registry order,
    each seeing the value already stored; then dispatches one [SOUND_RATE]
    ([SOUND_DETUNE]) event carrying the value.  The write is one
    computation that completes with all three done. *)
Theorem rate_detune_write (v : value) (w : World) (l : list ref) :
  registry w l -> is_Some (events (mgr w)) ->
  (exists w', set_rate B v w = (Ok tt, w')
     /\ get_rate w' = (Ok v, w')
     /\ mgr w' = with_rate v (mgr w)
     /\ ran_on B (with_rate v (mgr w)) CSetRate l (heap w) (heap w')
     /\ trace w' = trace w ++ calls CSetRate (List.filter (active (heap w)) l)
                           ++ [EDispatch (SoundValueEvent "SOUND_RATE" v)])
  /\
  (exists w', set_detune B v w = (Ok tt, w')
     /\ get_detune w' = (Ok v, w')
     /\ mgr w' = with_detune v (mgr w)
     /\ ran_on B (with_detune v (mgr w)) CSetRate l (heap w) (heap w')
     /\ trace w' = trace w ++ calls CSetRate (List.filter (active (heap w)) l)
                           ++ [EDispatch (SoundValueEvent "SOUND_DETUNE" v)]).
Proof.
  intros Hreg Hev. pose proof Hreg as (_ & Hnd & _). split.
  - eexists. split; [by apply (setter_run with_rate)|].
    repeat split; simpl; try done; by apply visit_ran_on.
  - eexists. split; [by apply (setter_run with_detune)|].
    repeat split; simpl; try done; by apply visit_ran_on.
Qed.

(** C3: [pauseAll], [resumeAll] and [stopAll] call [pause], [resume] and
    [stop] on the registered sounds whose [pendingRemove] flag is off, in
    registry order, and then dispatch one [SOUND_PAUSE], [SOUND_RESUME] or
    [SOUND_STOP] event; with no active sound the event is all there is, and
    the call completes all the same. *)
Theorem bulk_controls (w : World) (l : list ref) :
  registry w l -> is_Some (events (mgr w)) ->
  forall op c name,
    (op, c, name) ∈ [(pauseAll B, CPause, "SOUND_PAUSE");
                     (resumeAll B, CResume, "SOUND_RESUME");
                     (stopAll B, CStop, "SOUND_STOP")] ->
    exists w', op w = (Ok tt, w')
      /\ mgr w' = mgr w
      /\ ran_on B (mgr w) c l (heap w) (heap w')
      /\ trace w' = trace w ++ calls c (List.filter (active (heap w)) l)
                            ++ [EDispatch (SoundEvent name)]
      /\ (Forall (fun r => active (heap w) r = false) l ->
          trace w' = trace w ++ [EDispatch (SoundEvent name)]).
Proof.
  intros Hreg Hev op c name Hin. pose proof Hreg as (_ & Hnd & _).
  assert (op = (forEachActiveSound (fun r => invoke B r c) ;;
                dispatch (SoundEvent name))) as ->.
  { repeat (apply elem_of_cons in Hin as [Hin|Hin]; [by inversion Hin|]).
    by apply elem_of_nil in Hin. }
  eexists. split; [by apply bulk_run|].
  repeat split; simpl; try done; try by apply visit_ran_on.
  intros Hoff. f_equal.
  replace (List.filter (active (heap w)) l) with (@nil ref); [done|].
  clear -Hoff. induction Hoff as [|r l Hr _ IH]; [done|]. simpl. by rewrite Hr.
Qed.

(** *** [update] *)

Lemma elem_of_filter (f : ref -> bool) (l : list ref) r :
  r ∈ List.filter f l <-> f r = true /\ r ∈ l.
Proof. rewrite !list_elem_of_In, List.filter_In. tauto. Qed.

Lemma NoDup_filter (f : ref -> bool) (l : list ref) : NoDup l -> NoDup (List.filter f l).
Proof. rewrite !NoDup_ListNoDup. apply List.NoDup_filter. Qed.

Lemma take_delete_here (l : list ref) i : take i (delete i l) = take i l.
Proof.
  revert i. induction l as [|x l IH]; intros [|i]; simpl; try done. by rewrite IH.
Qed.

Lemma drop_delete_here (l : list ref) i : drop i (delete i l) = drop (S i) l.
Proof.
  revert i. induction l as [|x l IH]; intros [|i]; simpl; done.
Qed.

Lemma Forall_delete_is_Some (h : gmap ref Sound) (l : list ref) i :
  Forall (fun r => is_Some (h !! r)) l ->
  Forall (fun r => is_Some (h !! r)) (delete i l).
Proof.
  intros H. eapply Forall_forall. intros r Hr.
  eapply Forall_forall in H; [exact H|].
  by apply (sublist_subseteq (delete i l) l (sublist_delete l i)).
Qed.

(** The first loop of [update], from index [n - 1] down: of the first [n]
    sounds the active ones stay, in order; the rest of the array is as it
    was. *)
Lemma update_reap_run n : forall l w,
  sounds (mgr w) = Some l -> n <= length l ->
  Forall (fun r => is_Some (heap w !! r)) l ->
  update_reap n w
  = (Ok tt, mkWorld (host w)
              (with_sounds (Some (List.filter (active (heap w)) (take n l) ++ drop n l)) (mgr w))
              (heap w) (channels w) (trace w)).
Proof.
  induction n as [|i IH]; intros l w Hl Hn Hall.
  - simpl. unfold ret. rewrite drop_0. destruct w as [a m h c t]. simpl in *.
    do 2 f_equal. destruct m. simpl in *. by subst.
  - destruct (lookup_lt_is_Some_2 l i) as [r Hr]; [lia|].
    destruct (proj1 (Forall_lookup _ _) Hall i r Hr) as [s Hs].
    simpl. unfold bind at 1. unfold get_sounds, bind at 1, this. simpl. rewrite Hl. simpl.
    unfold bind at 1. unfold at_index. rewrite Hr. simpl.
    unfold bind at 1. unfold deref at 1. rewrite Hs.
    unfold bind at 1.
    rewrite (take_S_r l i r Hr), List.filter_app. simpl.
    unfold active at 2. rewrite Hs.
    destruct (pendingRemove s) eqn:Hp; simpl.
    + unfold splice, get_sounds, assign, bind, this, set_mgr. simpl. rewrite Hl. simpl.
      erewrite (IH (delete i l)); simpl; [| done | | by apply Forall_delete_is_Some ].
      * rewrite take_delete_here, drop_delete_here, app_nil_r. done.
      * rewrite length_delete by eauto. lia.
    + rewrite (IH l w Hl); [|lia|done].
      rewrite <- app_assoc. simpl. by rewrite (drop_S l r i Hr).
Qed.

Lemma forEach_invoke_run c l : forall w,
  NoDup l -> Forall (fun r => active (heap w) r = true) l ->
  forEach l (fun r => invoke B r c) w
  = (Ok tt, mkWorld (host w) (mgr w) (visit B (mgr w) c l (heap w)) (channels w)
                    (trace w ++ calls c l)).
Proof.
  induction l as [|r l IH]; intros w Hnd Hall.
  - simpl. unfold ret, calls. simpl. rewrite app_nil_r. by destruct w.
  - apply NoDup_cons in Hnd as [Hr Hnd].
    apply Forall_cons in Hall as [Ha Hall].
    unfold active in Ha. destruct (heap w !! r) as [s|] eqn:Hs; [|done].
    apply negb_true_iff in Ha.
    simpl. unfold bind at 1. unfold invoke at 1, bind, this, deref. simpl.
    rewrite Hs, Ha.
    rewrite IH; simpl; [|done|].
    + by rewrite <- app_assoc.
    + eapply Forall_forall. intros x Hx.
      rewrite active_insert_ne; [|by intros ->].
      by eapply Forall_forall in Hall.
Qed.

Lemma update_run t d w l :
  registry w l ->
  let kept := List.filter (active (heap w)) l in
  let m' := with_sounds (Some kept) (mgr w) in
  update B t d w
  = (Ok tt, mkWorld (host w) m' (visit B m' (CUpdate t d) kept (heap w)) (channels w)
                    (trace w ++ calls (CUpdate t d) kept)).
Proof.
  intros (Hl & Hnd & Hall) kept m'.
  unfold update. unfold bind at 1. unfold get_sounds at 1, bind at 1, this. rewrite Hl. simpl.
  unfold bind at 1. rewrite (update_reap_run _ l w Hl); [|done..].
  rewrite firstn_all, drop_all, app_nil_r.
  unfold bind at 1. unfold get_sounds, bind at 1, this. simpl.
  rewrite forEach_invoke_run; simpl; [done|by apply NoDup_filter|].
  eapply Forall_forall. intros r Hr. by apply elem_of_filter in Hr as [? _].
Qed.

Lemma registry_update w l kept h' :
  registry w l -> kept = List.filter (active (heap w)) l ->
  (forall r, r ∈ kept -> is_Some (h' !! r)) ->
  forall a c t, registry (mkWorld a (with_sounds (Some kept) (mgr w)) h' c t) kept.
Proof.
  intros (Hl & Hnd & Hall) -> Hh' a c t. split; [done|]. split; [by apply NoDup_filter|].
  simpl. by apply Forall_forall.
Qed.

Lemma update_spec (t d : value) (w : World) (l : list ref) :
  registry w l ->
  exists w', update B t d w = (Ok tt, w')
    /\ registry w' (List.filter (active (heap w)) l)
    /\ trace w' = trace w ++ calls (CUpdate t d) (List.filter (active (heap w)) l)
    /\ ran_on B (mgr w') (CUpdate t d) (List.filter (active (heap w)) l) (heap w) (heap w').
Proof.
  intros Hreg. pose proof Hreg as (Hl & Hnd & Hall).
  set (kept := List.filter (active (heap w)) l).
  assert (Hran : forall m, ran_on B m (CUpdate t d) kept (heap w)
                             (visit B m (CUpdate t d) kept (heap w))).
  { intros m. apply visit_ran_on. by apply NoDup_filter. }
  eexists. split; [by apply update_run|]. fold kept.
  split; [|split; [done|apply Hran]].
  eapply registry_update; [done..|]. intros r Hr.
  pose proof Hr as Hr'. apply elem_of_filter in Hr' as [Ha _]. unfold active in Ha.
  destruct (heap w !! r) as [s|] eqn:Hs; [|done].
  destruct (Hran (with_sounds (Some kept) (mgr w))) as [Hin _].
  rewrite (Hin r s Hr Hs). eauto.
Qed.

(** C2: [update(time, delta)] first takes out of the registry every sound
    whose [pendingRemove] flag is set, calling no method on it; then calls
    [update(time, delta)] once on each sound that is left, in the order
    they had.  A sound that raises its own flag during that call was
    ticked in this frame and is still registered; the next [update] takes
    it out and does not tick it. *)
Theorem update_reaps_then_ticks (t d : value) (w : World) (l : list ref) :
  registry w l ->
  exists w', update B t d w = (Ok tt, w')
    /\ registry w' (List.filter (active (heap w)) l)
    /\ trace w' = trace w ++ calls (CUpdate t d) (List.filter (active (heap w)) l)
    /\ ran_on B (mgr w') (CUpdate t d) (List.filter (active (heap w)) l) (heap w) (heap w')
    /\ (forall r s t2 d2,
          r ∈ l -> heap w !! r = Some s -> pendingRemove s = false ->
          pendingRemove (hook B (mgr w') (CUpdate t d) s) = true ->
          r ∈ List.filter (active (heap w)) l
          /\ exists w'' l'',
               update B t2 d2 w' = (Ok tt, w'')
               /\ registry w'' l'' /\ (r ∉ l'')
               /\ trace w'' = trace w' ++ calls (CUpdate t2 d2) l'').
Proof.
  intros Hreg.
  destruct (update_spec t d w l Hreg) as (w' & Hrun & Hreg' & Htr & Hran).
  exists w'. repeat (split; [done|]).
  intros r s t2 d2 Hr Hs Hp Hflag.
  assert (Hrk : r ∈ List.filter (active (heap w)) l).
  { apply elem_of_filter. split; [|done]. unfold active. by rewrite Hs, Hp. }
  split; [done|].
  destruct (update_spec t2 d2 w' _ Hreg') as (w'' & Hrun2 & Hreg2 & Htr2 & _).
  exists w'', (List.filter (active (heap w')) (List.filter (active (heap w)) l)).
  repeat (split; [done|]). split; [|done].
  intros Hin. apply elem_of_filter in Hin as [Ha _]. unfold active in Ha.
  destruct Hran as [Hin _]. rewrite (Hin r s Hrk Hs), Hp, Hflag in Ha. done.
Qed.

(** *** [removeByKey] *)

Lemma with_sounds_id m l : sounds m = Some l -> with_sounds (Some l) m = m.
Proof. destruct m. simpl. by intros ->. Qed.

Lemma not_elem_of_take_here (l : list ref) i r :
  NoDup l -> l !! i = Some r -> r ∉ take i l.
Proof.
  intros Hnd Hi Hin. apply elem_of_take in Hin as (j & Hj & Hlt).
  pose proof (NoDup_lookup l i j r Hnd Hi Hj). lia.
Qed.

Lemma keyed_insert_ne k h r x s : r <> x -> keyed k (<[x := s]> h) r = keyed k h r.
Proof. intros. unfold keyed. by rewrite lookup_insert_ne. Qed.

Lemma filter_ext_notin (f g : ref -> bool) x (l : list ref) :
  x ∉ l -> (forall r, r <> x -> f r = g r) -> List.filter f l = List.filter g l.
Proof.
  intros Hx Hfg. apply List.filter_ext_in. intros r Hr. apply Hfg.
  intros ->. apply Hx. by apply list_elem_of_In.
Qed.

(** The loop of [removeByKey], from index [n - 1] down: of the first [n]
    sounds the ones with the key are destroyed and taken out, last one
    first; the others, and the rest of the array, stay as they were. *)
Lemma removeByKey_loop_run k n : forall l w removed,
  sounds (mgr w) = Some l -> n <= length l -> NoDup l ->
  Forall (fun r => is_Some (heap w !! r)) l ->
  let gone := List.filter (keyed k (heap w)) (take n l) in
  let kept := List.filter (fun r => negb (keyed k (heap w) r)) (take n l) in
  exists h',
    removeByKey_loop B k n removed w
    = (Ok (removed + length gone),
       mkWorld (host w) (with_sounds (Some (kept ++ drop n l)) (mgr w)) h' (channels w)
               (trace w ++ calls CDestroy (rev gone)))
    /\ (forall r, r ∉ gone -> h' !! r = heap w !! r)
    /\ (forall r, r ∈ gone -> destroyed_in B (mgr w) (heap w) h' r).
Proof.
  induction n as [|i IH]; intros l w removed Hl Hn Hnd Hall; simpl.
  - exists (heap w). split; [|split; [done|by intros r Hr%elem_of_nil]].
    unfold ret, calls. simpl. rewrite drop_0, app_nil_r, Nat.add_0_r, (with_sounds_id _ _ Hl).
    by destruct w.
  - destruct (lookup_lt_is_Some_2 l i) as [r Hr]; [lia|].
    destruct (proj1 (Forall_lookup _ _) Hall i r Hr) as [s Hs].
    pose proof (not_elem_of_take_here l i r Hnd Hr) as Hnotin.
    unfold bind at 1. unfold get_sounds, bind at 1, this. simpl. rewrite Hl. simpl.
    unfold bind at 1. unfold at_index. rewrite Hr. simpl.
    unfold bind at 1. unfold deref at 1. rewrite Hs.
    assert (Hkr : keyed k (heap w) r = String.eqb (key s) k).
    { unfold keyed. by rewrite Hs. }
    rewrite (take_S_r l i r Hr), !List.filter_app. simpl. rewrite !Hkr.
    destruct (String.eqb (key s) k) eqn:Hk; simpl.
    + mrun. rewrite Hs. mrun. rewrite Hl. mrun.
      set (h1 := <[r := hook B (mgr w) CDestroy s]> (heap w)).
      edestruct (IH (delete i l)
                   (mkWorld (host w) (with_sounds (Some (delete i l)) (mgr w)) h1
                            (channels w) (trace w ++ [ECall r CDestroy])) (S removed))
        as (h' & Hrun & Hout & Hin); simpl.
      { done. }
      { rewrite length_delete by eauto. lia. }
      { exact (sublist_NoDup _ _ Hnd (sublist_delete l i)). }
      { apply Forall_delete_is_Some. by apply Forall_is_Some_insert. }
      simpl in Hrun, Hout, Hin.
      rewrite take_delete_here in Hrun, Hout, Hin. rewrite drop_delete_here in Hrun.
      assert (Hk1 : forall x, x <> r -> keyed k h1 x = keyed k (heap w) x).
      { intros x Hx. unfold h1. by apply keyed_insert_ne. }
      rewrite (filter_ext_notin (keyed k h1) (keyed k (heap w)) r _ Hnotin Hk1)
        in Hrun, Hout, Hin.
      rewrite (filter_ext_notin (fun x => negb (keyed k h1 x))
                                (fun x => negb (keyed k (heap w) x)) r _ Hnotin) in Hrun;
        [|by intros x Hx; rewrite Hk1].
      exists h'. split; [|split].
      * rewrite Hrun. f_equal.
        { f_equal. rewrite length_app. simpl. lia. }
        rewrite app_nil_r, rev_app_distr. simpl. by rewrite <- app_assoc.
      * intros x Hx. apply not_elem_of_app in Hx as [Hx1 Hx2].
        rewrite Hout by done. unfold h1. apply lookup_insert_ne.
        intros ->. apply Hx2. apply list_elem_of_singleton. done.
      * intros x Hx. apply elem_of_app in Hx as [Hx|Hx].
        { destruct (Hin x Hx) as (s0 & l0 & Hs0 & Hl0 & Hh').
          assert (x <> r) as Hne.
          { intros ->. apply Hnotin. by apply elem_of_filter in Hx as [_ ?]. }
          unfold h1 in Hs0. rewrite lookup_insert_ne in Hs0 by done.
          by exists s0, l0. }
        apply list_elem_of_singleton in Hx as ->.
        exists s, l. split; [done|]. split; [by eapply list_elem_of_lookup_2|].
        rewrite Hout.
        { unfold h1. rewrite lookup_insert_eq. by rewrite (with_sounds_id _ _ Hl). }
        intros Hx. by apply elem_of_filter in Hx as [_ ?].
    + edestruct (IH l w removed) as (h' & Hrun & Hout & Hin); [done|lia|done|done|].
      exists h'. rewrite !app_nil_r. split; [|done].
      rewrite Hrun. do 3 f_equal. rewrite <- app_assoc. simpl. by rewrite (drop_S l r i Hr).
Qed.

Lemma removeByKey_run k w l :
  registry w l ->
  let gone := List.filter (keyed k (heap w)) l in
  let kept := List.filter (fun r => negb (keyed k (heap w) r)) l in
  exists h',
    removeByKey B k w
    = (Ok (length gone),
       mkWorld (host w) (with_sounds (Some kept) (mgr w)) h' (channels w)
               (trace w ++ calls CDestroy (rev gone)))
    /\ (forall r, r ∉ gone -> h' !! r = heap w !! r)
    /\ (forall r, r ∈ gone -> destroyed_in B (mgr w) (heap w) h' r).
Proof.
  intros (Hl & Hnd & Hall) gone kept.
  destruct (removeByKey_loop_run k (length l) l w 0 Hl (le_n _) Hnd Hall)
    as (h' & Hrun & Hout & Hin).
  rewrite firstn_all, drop_all, app_nil_r in *. simpl in Hrun.
  exists h'. split; [|done].
  unfold removeByKey, bind at 1. unfold get_sounds, bind at 1, this. rewrite Hl. simpl.
  exact Hrun.
Qed.

Lemma registry_kept (f : ref -> bool) w l h' a c t :
  registry w l ->
  (forall r, r ∈ l -> f r = true -> is_Some (h' !! r)) ->
  registry (mkWorld a (with_sounds (Some (List.filter f l)) (mgr w)) h' c t)
           (List.filter f l).
Proof.
  intros (Hl & Hnd & Hall) Hh. split; [done|]. split; [by apply NoDup_filter|].
  simpl. apply Forall_forall. intros r Hr. apply elem_of_filter in Hr as [Hf Hr]. auto.
Qed.

(** The three sounds of the example, added to a new manager. *)
Lemma removeByKey_x_y_x (g : Game) (c1 c2 c3 : value) :
  let w := exec (add B "x" c1 ;; add B "y" c2 ;; add B "x" c3)
                (exec (initialize B) (blank g)) in
  sounds (mgr w) = Some [0; 1; 2]
  /\ fst (removeByKey B "x" w) = Ok 2
  /\ sounds (mgr (exec (removeByKey B "x") w)) = Some [1]
  /\ key <$> heap (exec (removeByKey B "x") w) !! 1 = Some "y".
Proof. vm_compute. done. Qed.

(** C4: [removeByKey(k)] destroys and takes out of the registry the sounds
    whose key is [k], all of them, scanning from the last to the first;
    the other sounds stay, in the order they had, and are not touched; the
    result is the number of sounds taken out.  After adding sounds keyed
    ["x"], ["y"], ["x"] to a new manager, [removeByKey("x")] gives 2 and
    leaves the ["y"] sound alone in the registry. *)
Theorem removeByKey_removes_matches (k : string) (w : World) (l : list ref) :
  registry w l ->
  (exists w',
     removeByKey B k w = (Ok (length (List.filter (keyed k (heap w)) l)), w')
     /\ registry w' (List.filter (fun r => negb (keyed k (heap w) r)) l)
     /\ trace w' = trace w ++ calls CDestroy (rev (List.filter (keyed k (heap w)) l))
     /\ (forall r, r ∉ List.filter (keyed k (heap w)) l -> heap w' !! r = heap w !! r)
     /\ (forall r, r ∈ List.filter (keyed k (heap w)) l ->
           destroyed_in B (mgr w) (heap w) (heap w') r))
  /\
  (forall g c1 c2 c3,
     let w3 := exec (add B "x" c1 ;; add B "y" c2 ;; add B "x" c3)
                    (exec (initialize B) (blank g)) in
     sounds (mgr w3) = Some [0; 1; 2]
     /\ fst (removeByKey B "x" w3) = Ok 2
     /\ sounds (mgr (exec (removeByKey B "x") w3)) = Some [1]
     /\ key <$> heap (exec (removeByKey B "x") w3) !! 1 = Some "y").
Proof.
  intros Hreg. split; [|apply removeByKey_x_y_x].
  pose proof Hreg as (Hl & Hnd & Hall).
  destruct (removeByKey_run k w l Hreg) as (h' & Hrun & Hout & Hin).
  eexists. split; [exact Hrun|]. simpl.
  split; [|by repeat split].
  apply registry_kept; [done|]. intros r Hr Hk. rewrite Hout.
  - by eapply Forall_forall in Hall.
  - intros Hg. apply elem_of_filter in Hg as [Hk' _]. rewrite Hk' in Hk. done.
Qed.

(** *** [remove] *)

Lemma indexOf_lookup r l : forall i, indexOf r l = Some i -> l !! i = Some r.
Proof.
  induction l as [|y l IH]; intros i; simpl; [done|].
  destruct (Nat.eqb_spec y r) as [->|Hne].
  - by intros [= <-].
  - destruct (indexOf r l) as [j|]; [|done]. intros [= <-]. simpl. by apply IH.
Qed.

Lemma indexOf_None r l : indexOf r l = None <-> r ∉ l.
Proof.
  induction l as [|y l IH]; simpl.
  - split; [intros _ H; by apply elem_of_nil in H|done].
  - rewrite not_elem_of_cons. destruct (Nat.eqb_spec y r) as [->|Hne].
    + split; [done|]. by intros [? _].
    + destruct (indexOf r l) as [j|]; simpl.
      * split; [done|]. intros [_ Hr]. by apply IH in Hr.
      * split; [|done]. intros _. split; [done|]. by apply IH.
Qed.

Lemma delete_filter_ne (l : list ref) : forall i r,
  NoDup l -> l !! i = Some r ->
  delete i l = List.filter (fun x => negb (Nat.eqb x r)) l.
Proof.
  induction l as [|y l IH]; intros i r Hnd Hi; [done|].
  apply NoDup_cons in Hnd as [Hy Hnd].
  destruct i as [|i]; simpl in *.
  - injection Hi as ->. rewrite Nat.eqb_refl. simpl.
    symmetry. rewrite <- (List.filter_ext_in (fun _ => true)).
    + clear. induction l as [|x l IH]; simpl; [done|]. by rewrite IH.
    + intros x Hx. symmetry. apply negb_true_iff, Nat.eqb_neq. intros ->.
      apply Hy. by apply list_elem_of_In.
  - destruct (Nat.eqb_spec y r) as [->|Hne]; simpl.
    + exfalso. apply Hy. by eapply list_elem_of_lookup_2.
    + f_equal. by apply IH.
Qed.

Lemma remove_run_in sound w l s :
  registry w l -> sound ∈ l -> heap w !! sound = Some s ->
  remove B sound w
  = (Ok true,
     mkWorld (host w)
             (with_sounds (Some (List.filter (fun x => negb (Nat.eqb x sound)) l)) (mgr w))
             (<[sound := hook B (mgr w) CDestroy s]> (heap w)) (channels w)
             (trace w ++ [ECall sound CDestroy])).
Proof.
  intros (Hl & Hnd & Hall) Hin Hs.
  destruct (indexOf sound l) as [i|] eqn:Hi; [|by apply indexOf_None in Hi].
  pose proof (indexOf_lookup _ _ _ Hi) as Hlook.
  unfold remove. mrun. rewrite Hl. mrun. rewrite Hi. mrun. rewrite Hs. mrun.
  rewrite Hl. mrun. by rewrite (delete_filter_ne l i sound Hnd Hlook).
Qed.

Lemma remove_run_out sound w l :
  sounds (mgr w) = Some l -> sound ∉ l -> remove B sound w = (Ok false, w).
Proof.
  intros Hl Hout. unfold remove. mrun. rewrite Hl. mrun.
  apply indexOf_None in Hout. rewrite Hout. mrun. by destruct w.
Qed.

(** C5: [remove(sound)] on a registered sound destroys it while it is
    still registered, takes it out of the registry and gives [true]; on a
    sound that is not registered it gives [false] and changes nothing.  So
    a second [remove] of the same sound gives [false] and changes
    nothing. *)
Theorem remove_sound (sound : ref) (w : World) (l : list ref) :
  registry w l ->
  (sound ∈ l ->
   exists s w',
     heap w !! sound = Some s
     /\ remove B sound w = (Ok true, w')
     /\ heap w' = <[sound := hook B (mgr w) CDestroy s]> (heap w)
     /\ trace w' = trace w ++ [ECall sound CDestroy]
     /\ registry w' (List.filter (fun x => negb (Nat.eqb x sound)) l)
     /\ (sound ∉ List.filter (fun x => negb (Nat.eqb x sound)) l)
     /\ remove B sound w' = (Ok false, w'))
  /\ (sound ∉ l -> remove B sound w = (Ok false, w)).
Proof.
  intros Hreg. pose proof Hreg as (Hl & Hnd & Hall). split.
  - intros Hin.
    destruct (proj1 (Forall_forall _ _) Hall sound Hin) as [s Hs].
    assert (Hgone : sound ∉ List.filter (fun x => negb (Nat.eqb x sound)) l).
    { intros Hf. apply elem_of_filter in Hf as [Hf _]. by rewrite Nat.eqb_refl in Hf. }
    exists s. eexists. split; [done|].
    split; [by apply (remove_run_in sound w l s)|]. simpl.
    split; [done|]. split; [done|].
    split; [|split; [done|by eapply remove_run_out]].
    apply registry_kept; [done|]. intros r Hr _. apply is_Some_insert.
    by eapply Forall_forall in Hall.
  - by apply remove_run_out.
Qed.

(** *** [destroy] *)



Lemma destroy_run w l :
  registry w l -> is_Some (events (mgr w)) ->
  let m' := with_events None (with_game None (mgr w)) in
  destroy B w
  = (Ok tt, mkWorld (host w) (with_sounds None m') (visit B m' CDestroy l (heap w))
                    (channels w)
                    (trace w ++ [EEventsDestroy]
                             ++ calls CDestroy (List.filter (active (heap w)) l))).
Proof.
  intros Hreg [d Hd] m'. pose proof Hreg as (Hl & Hnd & Hall).
  unfold destroy. mrun. rewrite Hd. mrun.
  rewrite (forEachActiveSound_run CDestroy _ l); [|by repeat split].
  simpl. by rewrite <- app_assoc.
Qed.


(** *** [add] and [play] *)

Lemma fresh_heap (h : gmap ref Sound) : h !! fresh (dom h) = None.
Proof. apply not_elem_of_dom, is_fresh. Qed.

Lemma add_run k c w l :
  sounds (mgr w) = Some l ->
  let r := fresh (dom (heap w)) in
  add B k c w
  = (Ok r, mkWorld (host w) (with_sounds (Some (l ++ [r])) (mgr w))
                   (<[r := mkSound k false None (new_fields B (mgr w) k c)]> (heap w))
                   (channels w) (trace w ++ [EAdd k c r])).
Proof. intros Hl r. unfold add. mrun. rewrite Hl. by mrun. Qed.

Lemma fresh_not_registered w l : registry w l -> fresh (dom (heap w)) ∉ l.
Proof.
  intros (_ & _ & Hall) Hin. eapply Forall_forall in Hall; [|exact Hin].
  rewrite fresh_heap in Hall. by destruct Hall.
Qed.

Lemma registry_grow w l s a m c t :
  registry w l -> sounds m = Some (l ++ [fresh (dom (heap w))]) ->
  registry (mkWorld a m (<[fresh (dom (heap w)) := s]> (heap w)) c t)
           (l ++ [fresh (dom (heap w))]).
Proof.
  intros Hreg Hm. pose proof (fresh_not_registered w l Hreg) as Hfresh.
  destruct Hreg as (Hl & Hnd & Hall). split; [done|]. split.
  - apply NoDup_app. split; [done|]. split; [|apply NoDup_singleton].
    intros x Hx ->%list_elem_of_singleton. done.
  - simpl. apply Forall_app. split; [by apply Forall_is_Some_insert|].
    apply Forall_singleton. rewrite lookup_insert_eq. eauto.
Qed.


Lemma play_run k extra w l :
  registry w l ->
  let r := fresh (dom (heap w)) in
  exists h',
    play B k extra w
    = (Ok tt, mkWorld (host w) (with_sounds (Some (l ++ [r])) (mgr w)) h'
                      (<[r := default [] (channels w !! r) ++ [("SOUND_ENDED", HDestroy r)]]>
                         (channels w))
                      (trace w ++ [EAdd k VUndefined r; EOnce r "SOUND_ENDED" (HDestroy r)]
                               ++ play_calls r extra))
    /\ is_Some (h' !! r) /\ (forall x, x <> r -> h' !! x = heap w !! x).
Proof.
  intros (Hl & Hnd & Hall) r. unfold play, play_calls.
  unfold bind at 1. rewrite (add_run k VUndefined w l Hl). fold r.
  mrun. destruct (truthy extra); [destruct (truthy (get_prop extra "name"))|].
  all: mrun; rewrite ?lookup_insert_eq; mrun; rewrite ?lookup_insert_eq; mrun.
  all: eexists; split;
    [rewrite <- ?app_assoc; simpl; reflexivity
    |split; [rewrite lookup_insert_eq; eauto
            |intros x Hx; by rewrite ?lookup_insert_ne by done]].
Qed.

(** C7, as the code has it: [play(key, extra)] makes a sound with
    [add(key)], subscribes [sound.destroy] once to the sound's
    [SOUND_ENDED], and then: when [extra] and [extra.name] are both truthy,
    calls [addMarker(extra)] and [play(extra.name)]; when [extra] is truthy
    and [extra.name] is not, calls [play(extra)]; when [extra] is not
    truthy, calls [play()].  Nothing is returned.  The subscription runs
    [destroy] at the first [SOUND_ENDED] and is gone after it. *)
Theorem play_fire_and_forget (k : string) (extra : value) (w : World) (l : list ref) :
  registry w l -> channels w !! fresh (dom (heap w)) = None ->
  let r := fresh (dom (heap w)) in
  exists w' tail,
    play B k extra w = (Ok tt, w')
    /\ registry w' (l ++ [r]) /\ (r ∉ l)
    /\ trace w' = trace w ++ [EAdd k VUndefined r; EOnce r "SOUND_ENDED" (HDestroy r)]
                          ++ tail
    /\ (truthy extra = true -> truthy (get_prop extra "name") = true ->
        tail = [ECall r (CAddMarker extra); ECall r (CPlay [get_prop extra "name"])])
    /\ (truthy extra = true -> truthy (get_prop extra "name") = false ->
        tail = [ECall r (CPlay [extra])])
    /\ (truthy extra = false -> tail = [ECall r (CPlay [])])
    /\ channels w' !! r = Some [("SOUND_ENDED", HDestroy r)]
    /\ exists w1,
         sound_emit B r "SOUND_ENDED" w' = (Ok tt, w1)
         /\ trace w1 = trace w' ++ [ECall r CDestroy]
         /\ channels w1 !! r = Some []
         /\ sound_emit B r "SOUND_ENDED" w1 = (Ok tt, w1).
Proof.
  intros Hreg Hc r. pose proof Hreg as (Hl & Hnd & Hall).
  destruct (play_run k extra w l Hreg) as (h' & Hrun & [s' Hs'] & Hother). fold r in Hrun, Hs', Hother.
  eexists. exists (play_calls r extra). split; [exact Hrun|]. simpl.
  split.
  { split; [done|]. split.
    - apply NoDup_app. split; [done|]. split; [|apply NoDup_singleton].
      intros x Hx ->%list_elem_of_singleton. by apply (fresh_not_registered w l).
    - simpl. apply Forall_app. split; [|apply Forall_singleton; eauto].
      apply Forall_forall. intros x Hx. rewrite Hother.
      + by eapply Forall_forall in Hall.
      + intros ->. by apply (fresh_not_registered w l). }
  split; [by apply fresh_not_registered|]. split; [done|].
  unfold play_calls.
  split; [by intros -> ->|]. split; [by intros -> ->|]. split; [by intros ->|].
  fold r in Hc. rewrite Hc. simpl. split; [by rewrite lookup_insert_eq|].
  unfold sound_emit. simpl. rewrite lookup_insert_eq. simpl.
  mrun. rewrite Hs'. mrun.
  eexists. split; [reflexivity|]. simpl. split; [done|].
  split; [by rewrite lookup_insert_eq|].
  rewrite !lookup_insert_eq. simpl. mrun. by rewrite !insert_insert_eq.
Qed.

(** *** The constructor and the game's signals *)

Lemma initialize_run (g : Game) :
  initialize B (blank g)
  = (Ok tt,
     mkWorld (mkGame (game_listeners g ++ [("ON_BLUR", HBlur); ("ON_FOCUS", HFocus)])
                     (cache_json g))
             (mkManager (Some TheGame) (Some EventDispatcher) (Some [])
                        (VBool false) (VNumber 1) (VBool true) (VNumber 1) (VNumber 0))
             ∅ ∅
             [EDispatch (SoundValueEvent "SOUND_RATE" (VNumber 1));
              EDispatch (SoundValueEvent "SOUND_DETUNE" (VNumber 0))]).
Proof. destruct g as [ls cache]. cbv -[List.app]. by rewrite <- app_assoc. Qed.

Lemma game_emit_run name w :
  game_listeners (host w) = [("ON_BLUR", HBlur); ("ON_FOCUS", HFocus)] ->
  name = "ON_BLUR" \/ name = "ON_FOCUS" ->
  game_emit name w
  = (Ok tt, mkWorld (host w) (mgr w) (heap w) (channels w)
                    (trace w ++ if truthy (pauseOnBlur (mgr w))
                                then [if String.eqb name "ON_BLUR" then EOnBlur else EOnFocus]
                                else [])).
Proof.
  intros Hls Hname. unfold game_emit. rewrite Hls.
  destruct Hname as [-> | ->]; simpl; unfold run_game_handler, onBlur, onFocus; mrun;
    destruct (truthy (pauseOnBlur (mgr w))); mrun; rewrite ?app_nil_r; by destruct w.
Qed.

(** *** [addAudioSprite] and [playAudioSprite] *)





(** *** Computations that leave the registry alone *)

Lemma count_adds_app t t' : count_adds (t ++ t') = count_adds t + count_adds t'.
Proof. unfold count_adds. by rewrite List.filter_app, length_app. Qed.

Lemma count_adds_cons e t :
  count_adds (e :: t) = (if is_add e then 1 else 0) + count_adds t.
Proof. unfold count_adds. simpl. by destruct (is_add e). Qed.

Lemma count_adds_calls c l : count_adds (calls c l) = 0.
Proof. unfold count_adds, calls. by induction l. Qed.

Lemma steady_refl w : steady w w.
Proof. by repeat split. Qed.

Lemma steady_trans w1 w2 w3 : steady w1 w2 -> steady w2 w3 -> steady w1 w3.
Proof. intros (? & ? & ?) (? & ? & ?). repeat split; congruence. Qed.

Lemma quiet_refl w : quiet w w.
Proof.
  split; [apply steady_refl|]. split; [done|]. split; [done|].
  exists []. by rewrite app_nil_r.
Qed.

Lemma quiet_trans w1 w2 w3 : quiet w1 w2 -> quiet w2 w3 -> quiet w1 w3.
Proof.
  intros (Hs1 & Hm1 & Hh1 & t1 & Ht1 & Hc1) (Hs2 & Hm2 & Hh2 & t2 & Ht2 & Hc2).
  split; [by eapply steady_trans|]. split; [congruence|]. split; [auto|].
  exists (t1 ++ t2). rewrite Ht2, Ht1, <- app_assoc, count_adds_app. split; [done|lia].
Qed.

(** A step that changes nothing the registry depends on and logs [t]. *)
Lemma quiet_step w a m h c t :
  a = host w -> game m = game (mgr w) -> events m = events (mgr w) ->
  sounds m = sounds (mgr w) ->
  (forall x, is_Some (heap w !! x) -> is_Some (h !! x)) ->
  count_adds t = 0 ->
  quiet w (mkWorld a m h c (trace w ++ t)).
Proof. intros -> ? ? ? ? ?. repeat split; try done. by exists t. Qed.

Lemma quiet_same_trace w m h c :
  game m = game (mgr w) -> events m = events (mgr w) -> sounds m = sounds (mgr w) ->
  (forall x, is_Some (heap w !! x) -> is_Some (h !! x)) ->
  quiet w (mkWorld (host w) m h c (trace w)).
Proof.
  intros Hg He Hs Hh. pose proof (quiet_step w (host w) m h c []) as Hq.
  rewrite app_nil_r in Hq. by apply Hq.
Qed.

Lemma calm_ret {A} (a : A) : calm (ret a).
Proof. intros w. apply quiet_refl. Qed.

Lemma calm_throw {A} e : calm (@throw A e).
Proof. intros w. apply quiet_refl. Qed.

Lemma calm_bind {A C} (m : M A) (f : A -> M C) :
  calm m -> (forall a, calm (f a)) -> calm (bind m f).
Proof.
  intros Hm Hf w. specialize (Hm w). unfold exec, bind in *.
  destruct (m w) as [[a|e] w1]; simpl in *; [|done].
  eapply quiet_trans; [exact Hm|apply Hf].
Qed.

(** What follows a computation, when that is calm, is quiet from where
    the computation ended. *)
Lemma calm_after {A C} (m : M A) (f : A -> M C) w :
  (forall a, calm (f a)) -> quiet (exec m w) (exec (bind m f) w).
Proof.
  intros Hf. unfold exec, bind.
  destruct (m w) as [[a|e] w1]; simpl; [apply Hf|apply quiet_refl].
Qed.

Lemma calm_this : calm this.
Proof. intros w. apply quiet_refl. Qed.

Lemma calm_unnull {A} (o : option A) : calm (unnull o).
Proof. destruct o; [apply calm_ret|apply calm_throw]. Qed.

Lemma calm_get_sounds : calm get_sounds.
Proof. apply calm_bind; [apply calm_this|]. intros m. apply calm_unnull. Qed.

Lemma calm_deref r : calm (deref r).
Proof. intros w. unfold exec, deref. destruct (heap w !! r); apply quiet_refl. Qed.

Lemma calm_log e : is_add e = false -> calm (log e).
Proof.
  intros He w. unfold exec, log. simpl. apply quiet_step; try done.
  rewrite count_adds_cons, He. done.
Qed.

Lemma calm_assign f :
  (forall m, game (f m) = game m /\ events (f m) = events m /\ sounds (f m) = sounds m) ->
  calm (assign f).
Proof.
  intros Hf w. destruct (Hf (mgr w)) as (? & ? & ?).
  unfold exec, assign. mrun. by apply quiet_same_trace.
Qed.

Lemma calm_invoke r c : calm (invoke B r c).
Proof.
  intros w. unfold exec, invoke. mrun. destruct (heap w !! r) as [s|] eqn:Hs; simpl.
  - apply quiet_step; try done. intros x. apply is_Some_insert.
  - apply quiet_refl.
Qed.

Lemma calm_once r name h : calm (once r name h).
Proof. intros w. unfold exec, once. simpl. by apply quiet_step. Qed.

Lemma calm_dispatch e : calm (dispatch e).
Proof.
  apply calm_bind; [apply calm_this|]. intros m.
  apply calm_bind; [apply calm_unnull|]. intros _. by apply calm_log.
Qed.

Lemma calm_forEach l f : (forall r, calm (f r)) -> calm (forEach l f).
Proof.
  intros Hf. induction l as [|r l IH]; simpl; [apply calm_ret|].
  apply calm_bind; [apply Hf|]. intros _. apply IH.
Qed.

Lemma calm_forEachActiveSound cb :
  (forall r, calm (cb r)) -> calm (forEachActiveSound cb).
Proof.
  intros Hcb. apply calm_bind; [apply calm_get_sounds|]. intros l.
  apply calm_forEach. intros r. apply calm_bind; [apply calm_deref|]. intros s.
  destruct (pendingRemove s); [apply calm_ret|apply Hcb].
Qed.

Lemma calm_bulk c e :
  calm (forEachActiveSound (fun r => invoke B r c) ;; dispatch e).
Proof.
  apply calm_bind; [|intros _; apply calm_dispatch].
  apply calm_forEachActiveSound. intros r. apply calm_invoke.
Qed.

Lemma calm_set_rate v : calm (set_rate B v).
Proof. apply calm_bind; [by apply calm_assign|]. intros _. apply calm_bulk. Qed.

Lemma calm_set_detune v : calm (set_detune B v).
Proof. apply calm_bind; [by apply calm_assign|]. intros _. apply calm_bulk. Qed.

Lemma calm_run_sound_handlers hs : calm (run_sound_handlers B hs).
Proof.
  induction hs as [|[name [r]] hs IH]; simpl; [apply calm_ret|].
  apply calm_bind; [apply calm_invoke|]. intros _. apply IH.
Qed.

Lemma calm_sound_emit r name : calm (sound_emit B r name).
Proof.
  intros w. unfold exec, sound_emit.
  eapply quiet_trans; [|apply calm_run_sound_handlers]. by apply quiet_same_trace.
Qed.

Lemma calm_run_game_handlers name ls : calm (run_game_handlers name ls).
Proof.
  induction ls as [|[n h] ls IH]; simpl; [apply calm_ret|].
  apply calm_bind; [|intros _; apply IH].
  destruct (String.eqb n name); [|apply calm_ret].
  apply calm_bind; [apply calm_this|]. intros m.
  destruct h, (truthy (pauseOnBlur m)); try apply calm_ret; by apply calm_log.
Qed.

Lemma calm_game_emit name : calm (game_emit name).
Proof. intros w. unfold game_emit. apply calm_run_game_handlers. Qed.

Lemma calm_cache_get k : calm (cache_get k).
Proof.
  apply calm_bind; [apply calm_this|]. intros m.
  apply calm_bind; [apply calm_unnull|]. intros _ w. apply quiet_refl.
Qed.

Lemma calm_set_spritemap r sm : calm (set_spritemap r sm).
Proof.
  intros w. unfold exec, set_spritemap. mrun.
  destruct (heap w !! r) as [s|]; simpl; [|apply quiet_refl].
  apply quiet_same_trace; try done. intros x. apply is_Some_insert.
Qed.

Lemma calm_add_markers r config names : calm (add_markers B r config names).
Proof.
  induction names as [|name names IH]; simpl; [apply calm_ret|].
  apply calm_bind; [apply calm_deref|]. intros s.
  apply calm_bind; [apply calm_unnull|]. intros sm.
  destruct (find_sprite name sm) as [p|]; [destruct (sprite_own p)|]; try apply IH.
  apply calm_bind; [apply calm_invoke|]. intros _. apply IH.
Qed.

Lemma registry_quiet w w' l : quiet w w' -> registry w l -> registry w' l.
Proof.
  intros (_ & Hm & Hh & _) (Hl & Hnd & Hall). split; [by rewrite Hm|]. split; [done|].
  eapply Forall_impl; [exact Hall|]. intros r. apply Hh.
Qed.

Lemma count_adds_quiet w w' : quiet w w' -> count_adds (trace w') = count_adds (trace w).
Proof. intros (_ & _ & _ & t & -> & Ht). rewrite count_adds_app. lia. Qed.

(** *** The registry along a sequence of operations *)

Lemma registered_registry w l : registry w l -> registered w = l.
Proof. intros (Hl & _). unfold registered. by rewrite Hl. Qed.

Lemma length_filter_split (f : ref -> bool) (l : list ref) :
  length (List.filter f l) + length (List.filter (fun r => negb (f r)) l) = length l.
Proof.
  induction l as [|x l IH]; simpl; [done|]. destruct (f x); simpl; lia.
Qed.

Lemma length_filter_ne r (l : list ref) :
  NoDup l -> r ∈ l ->
  length (List.filter (fun x => negb (Nat.eqb x r)) l) + 1 = length l.
Proof.
  intros Hnd Hr. apply list_elem_of_lookup_1 in Hr as [i Hi].
  rewrite <- (delete_filter_ne l i r Hnd Hi), length_delete by eauto.
  pose proof (lookup_lt_Some l i r Hi). unfold ref in *. lia.
Qed.

Lemma elem_of_calls r c c' l : ECall r c ∈ calls c' l <-> c = c' /\ r ∈ l.
Proof.
  unfold calls. rewrite list_elem_of_fmap. split.
  - intros (x & [= -> ->] & Hx). done.
  - intros [-> Hr]. by exists r.
Qed.

(** [add] puts one new sound at the end of the registry. *)
Lemma add_grows k config w l :
  registry w l ->
  registry (exec (add B k config) w) (l ++ [fresh (dom (heap w))])
  /\ count_adds (trace (exec (add B k config) w)) = count_adds (trace w) + 1
  /\ steady w (exec (add B k config) w).
Proof.
  intros Hreg. pose proof Hreg as (Hl & _).
  unfold exec. rewrite (add_run k config w l Hl). simpl.
  split; [by apply registry_grow|]. split; [|by repeat split].
  rewrite count_adds_app. unfold count_adds at 2. simpl. lia.
Qed.

(** The three ways of an operation: it adds a sound and is quiet after
    that; it is quiet; it takes sounds out. *)
Lemma grow_registry (o : op) w w' c l k config :
  registry w l -> length l + removed c + reaped c = count_adds (trace w) ->
  quiet (exec (add B k config) w) w' ->
  exists l',
    registry w' l'
    /\ length l' + removed c + reaped c = count_adds (trace w')
    /\ steady w w'
    /\ (forall r, r ∈ l -> r ∉ l' -> taken_out o w w' r).
Proof.
  intros Hreg Hsize Hq.
  destruct (add_grows k config w l Hreg) as (Hreg1 & Hadds & Hsteady).
  exists (l ++ [fresh (dom (heap w))]).
  split; [by eapply registry_quiet|].
  rewrite (count_adds_quiet _ _ Hq), Hadds, length_app. simpl.
  split; [unfold ref in *; lia|]. split; [eapply steady_trans; [done|apply Hq]|].
  intros r Hr Hout. exfalso. apply Hout, elem_of_app. by left.
Qed.

Lemma keep_registry (o : op) w w' c l :
  registry w l -> length l + removed c + reaped c = count_adds (trace w) ->
  quiet w w' ->
  exists l',
    registry w' l'
    /\ length l' + removed c + reaped c = count_adds (trace w')
    /\ steady w w'
    /\ (forall r, r ∈ l -> r ∉ l' -> taken_out o w w' r).
Proof.
  intros Hreg Hsize Hq. exists l. split; [by eapply registry_quiet|].
  rewrite (count_adds_quiet _ _ Hq). split; [done|]. split; [apply Hq|done].
Qed.

(** One operation keeps the registry an array of distinct sounds, keeps
    the count right, leaves the game alone, and takes a sound out only as
    [taken_out] says. *)
Lemma step_registry o w c l :
  registry w l -> length l + removed c + reaped c = count_adds (trace w) ->
  exists l',
    registry (fst (step B o (w, c))) l'
    /\ length l' + removed (snd (step B o (w, c))) + reaped (snd (step B o (w, c)))
       = count_adds (trace (fst (step B o (w, c))))
    /\ steady w (fst (step B o (w, c)))
    /\ (forall r, r ∈ l -> r ∉ l' -> taken_out o w (fst (step B o (w, c))) r).
Proof.
  intros Hreg Hsize. pose proof Hreg as (Hl & Hnd & Hall).
  destruct o as [k config|k config|k extra|k name config|sound|k| | | |v|v|v|t d|sound| | ].
  - (* add *)
    apply (grow_registry (OpAdd k config) w _ c l k config Hreg Hsize), quiet_refl.
  - (* addAudioSprite *)
    apply (grow_registry (OpAddAudioSprite k config) w _ c l k config Hreg Hsize).
    simpl. unfold addAudioSprite. apply calm_after.
    intros r. apply calm_bind; [apply calm_cache_get|]. intros e.
    apply calm_bind; [apply calm_unnull|]. intros e'.
    apply calm_bind; [apply calm_set_spritemap|]. intros _.
    apply calm_bind; [apply calm_deref|]. intros s.
    apply calm_bind; [apply calm_add_markers|]. intros _. apply calm_ret.
  - (* play *)
    apply (grow_registry (OpPlay k extra) w _ c l k VUndefined Hreg Hsize).
    simpl. unfold play. apply calm_after.
    intros r. apply calm_bind; [apply calm_once|]. intros _.
    destruct (truthy extra); [destruct (truthy (get_prop extra "name"))|];
      try apply calm_invoke.
    apply calm_bind; [apply calm_invoke|]. intros _. apply calm_invoke.
  - (* playAudioSprite *)
    apply (grow_registry (OpPlayAudioSprite k name config) w _ c l k VUndefined Hreg Hsize).
    simpl. unfold playAudioSprite.
    eapply quiet_trans; [|apply calm_after].
    + unfold addAudioSprite. apply calm_after.
      intros r. apply calm_bind; [apply calm_cache_get|]. intros e.
      apply calm_bind; [apply calm_unnull|]. intros e'.
      apply calm_bind; [apply calm_set_spritemap|]. intros _.
      apply calm_bind; [apply calm_deref|]. intros s.
      apply calm_bind; [apply calm_add_markers|]. intros _. apply calm_ret.
    + intros r. apply calm_bind; [apply calm_once|]. intros _. apply calm_invoke.
  - (* remove *)
    simpl. destruct (decide (sound ∈ l)) as [Hin|Hout].
    + destruct (proj1 (Forall_forall _ _) Hall sound Hin) as [s Hs].
      rewrite (remove_run_in sound w l s Hreg Hin Hs). simpl.
      eexists. split; [|split; [|split]].
      * apply registry_kept; [done|]. intros r Hr _. apply is_Some_insert.
        by eapply Forall_forall in Hall.
      * rewrite count_adds_app. unfold count_adds at 2. simpl.
        pose proof (length_filter_ne sound l Hnd Hin). unfold ref in *. lia.
      * by repeat split.
      * intros r Hr Hgone. exists [ECall sound CDestroy]. split; [done|].
        rewrite elem_of_filter in Hgone.
        destruct (Nat.eqb_spec r sound) as [->|Hne]; [by left|].
        exfalso. by apply Hgone.
    + rewrite (remove_run_out sound w l Hl Hout). simpl.
      exists l. split; [done|]. split; [lia|]. split; [apply steady_refl|done].
  - (* removeByKey *)
    simpl. destruct (removeByKey_run k w l Hreg) as (h' & Hrun & Hother & Hdestroyed).
    rewrite Hrun. simpl. eexists. split; [|split; [|split]].
    + apply registry_kept; [done|]. intros r Hr Hk. rewrite Hother.
      * by eapply Forall_forall in Hall.
      * intros Hg. apply elem_of_filter in Hg as [Hk' _]. rewrite Hk' in Hk. done.
    + rewrite count_adds_app, count_adds_calls.
      pose proof (length_filter_split (keyed k (heap w)) l). unfold ref in *. lia.
    + by repeat split.
    + intros r Hr Hgone. eexists. split; [done|].
      apply elem_of_calls. split; [done|].
      apply list_elem_of_In. apply -> List.in_rev. apply list_elem_of_In, elem_of_filter.
      split; [|done]. rewrite elem_of_filter in Hgone.
      destruct (keyed k (heap w) r); [done|]. exfalso. by apply Hgone.
  - (* pauseAll *)
    apply (keep_registry OpPauseAll w _ c l Hreg Hsize). simpl. unfold pauseAll. apply calm_bulk.
  - (* resumeAll *)
    apply (keep_registry OpResumeAll w _ c l Hreg Hsize). simpl. unfold resumeAll. apply calm_bulk.
  - (* stopAll *)
    apply (keep_registry OpStopAll w _ c l Hreg Hsize). simpl. unfold stopAll. apply calm_bulk.
  - (* rate *)
    apply (keep_registry (OpSetRate v) w _ c l Hreg Hsize). apply calm_set_rate.
  - (* detune *)
    apply (keep_registry (OpSetDetune v) w _ c l Hreg Hsize). apply calm_set_detune.
  - (* pauseOnBlur *)
    apply (keep_registry (OpSetPauseOnBlur v) w _ c l Hreg Hsize). by apply calm_assign.
  - (* update *)
    simpl. unfold exec. rewrite (update_run t d w l Hreg). simpl.
    rewrite (registered_registry w l Hreg), count_adds_app, count_adds_calls.
    eexists. split; [|split; [|split]].
    + destruct (update_spec t d w l Hreg) as (w' & Hrun & Hreg' & _).
      rewrite (update_run t d w l Hreg) in Hrun. by injection Hrun as <-.
    + pose proof (length_filter_split (active (heap w)) l). unfold ref in *. lia.
    + by repeat split.
    + intros r Hr Hgone. rewrite elem_of_filter in Hgone.
      split; [destruct (active (heap w) r); [exfalso; by apply Hgone|done]|].
      eexists. split; [reflexivity|]. intros c' Hc'.
      apply elem_of_calls in Hc' as [_ Hc']. apply Hgone. by apply elem_of_filter in Hc'.
  - (* the sound ends *)
    apply (keep_registry (OpEnded sound) w _ c l Hreg Hsize). apply calm_sound_emit.
  - (* blur *)
    apply (keep_registry OpBlur w _ c l Hreg Hsize). apply calm_game_emit.
  - (* focus *)
    apply (keep_registry OpFocus w _ c l Hreg Hsize). apply calm_game_emit.
Qed.

Lemma run_snoc ops o st : run B (ops ++ [o]) st = step B o (run B ops st).
Proof. unfold run. by rewrite foldl_app. Qed.

Lemma run_registry (g : Game) (ops : list op) :
  let st := run B ops (exec (initialize B) (blank g), Tally 0 0) in
  exists l,
    registry (fst st) l
    /\ length l + removed (snd st) + reaped (snd st) = count_adds (trace (fst st))
    /\ steady (exec (initialize B) (blank g)) (fst st).
Proof.
  induction ops as [|o ops IH] using rev_ind; intros st.
  - exists []. unfold st, exec. rewrite initialize_run. simpl.
    split; [by repeat split; constructor|]. split; [done|apply steady_refl].
  - destruct IH as (l & Hreg & Hsize & Hsteady). unfold st. rewrite run_snoc.
    destruct (run B ops _) as [w c]. simpl in Hreg, Hsize, Hsteady.
    destruct (step_registry o w c l Hreg Hsize) as (l' & Hreg' & Hsize' & Hsteady' & _).
    exists l'. split; [done|]. split; [done|]. by eapply steady_trans.
Qed.


(** *** The blur and focus subscriptions *)

Lemma run_host (g : Game) (ops : list op) :
  host (fst (run B ops (exec (initialize B) (blank g), Tally 0 0)))
  = mkGame (game_listeners g ++ [("ON_BLUR", HBlur); ("ON_FOCUS", HFocus)]) (cache_json g)
  /\ game (mgr (fst (run B ops (exec (initialize B) (blank g), Tally 0 0)))) = Some TheGame
  /\ events (mgr (fst (run B ops (exec (initialize B) (blank g), Tally 0 0))))
     = Some EventDispatcher.
Proof.
  destruct (run_registry g ops) as (l & _ & _ & Hsteady).
  revert Hsteady. unfold exec at 1. rewrite initialize_run.
  generalize (run B ops (exec (initialize B) (blank g), Tally 0 0)).
  intros [w c] (Hh & Hg & He). done.
Qed.

Lemma signals_after_destroy w l :
  registry w l -> is_Some (events (mgr w)) ->
  game_listeners (host w) = [("ON_BLUR", HBlur); ("ON_FOCUS", HFocus)] ->
  exists w',
    destroy B w = (Ok tt, w')
    /\ host w' = host w
    /\ pauseOnBlur (mgr w') = pauseOnBlur (mgr w)
    /\ game_emit "ON_BLUR" w'
       = (Ok tt, mkWorld (host w') (mgr w') (heap w') (channels w')
                         (trace w' ++ if truthy (pauseOnBlur (mgr w))
                                      then [EOnBlur] else []))
    /\ game_emit "ON_FOCUS" w'
       = (Ok tt, mkWorld (host w') (mgr w') (heap w') (channels w')
                         (trace w' ++ if truthy (pauseOnBlur (mgr w))
                                      then [EOnFocus] else [])).
Proof.
  intros Hreg Hev Hls.
  eexists. split; [by apply (destroy_run w l Hreg)|].
  split; [reflexivity|]. split; [reflexivity|].
  split; (rewrite game_emit_run; [reflexivity|exact Hls|auto]).
Qed.

(** C9, as the code has it: the constructor subscribes one listener to
    [ON_BLUR] and one to [ON_FOCUS] on the game's channel, and no
    operation after it subscribes another.  [destroy()] leaves the game's
    channel and [pauseOnBlur] as they are: a blur or focus signal that
    comes after it still calls [onBlur] or [onFocus], whenever
    [pauseOnBlur] is set. *)
Theorem blur_focus_subscriptions (cache : gmap string json_entry) (ops : list op) :
  let w := fst (run B ops (exec (initialize B) (blank (mkGame [] cache)), Tally 0 0)) in
  game_listeners (host w) = [("ON_BLUR", HBlur); ("ON_FOCUS", HFocus)]
  /\ exists w',
       destroy B w = (Ok tt, w')
       /\ host w' = host w
       /\ pauseOnBlur (mgr w') = pauseOnBlur (mgr w)
       /\ game_emit "ON_BLUR" w'
          = (Ok tt, mkWorld (host w') (mgr w') (heap w') (channels w')
                            (trace w' ++ if truthy (pauseOnBlur (mgr w))
                                         then [EOnBlur] else []))
       /\ game_emit "ON_FOCUS" w'
          = (Ok tt, mkWorld (host w') (mgr w') (heap w') (channels w')
                            (trace w' ++ if truthy (pauseOnBlur (mgr w))
                                         then [EOnFocus] else [])).
Proof.
  intros w.
  destruct (run_registry (mkGame [] cache) ops) as (l & Hreg & _).
  destruct (run_host (mkGame [] cache) ops) as (Hhost & _ & Hev).
  assert (Hls : game_listeners (host w) = [("ON_BLUR", HBlur); ("ON_FOCUS", HFocus)]).
  { unfold w. by rewrite Hhost. }
  split; [exact Hls|].
  apply (signals_after_destroy w l); [exact Hreg| |exact Hls].
  unfold w. rewrite Hev. by eexists.
Qed.

(** ** Further properties of the manager *)

(** *** The constructor *)

(** X1: the constructor leaves the manager with the game, a new event
    channel, an empty registry, [mute] off, [volume], [rate] at 1,
    [detune] at 0 and [pauseOnBlur] on.  Because [rate] and [detune] are
    assigned through their setters, it dispatches a [SOUND_RATE] event
    carrying 1 and then a [SOUND_DETUNE] event carrying 0 on that channel.
    Its two listeners go after the ones the game already has. *)
Theorem constructor_defaults (g : Game) :
  exists w,
    initialize B (blank g) = (Ok tt, w)
    /\ game (mgr w) = Some TheGame
    /\ events (mgr w) = Some EventDispatcher
    /\ registry w []
    /\ mute (mgr w) = VBool false
    /\ volume (mgr w) = VNumber 1
    /\ pauseOnBlur (mgr w) = VBool true
    /\ get_rate w = (Ok (VNumber 1), w)
    /\ get_detune w = (Ok (VNumber 0), w)
    /\ trace w = [EDispatch (SoundValueEvent "SOUND_RATE" (VNumber 1));
                  EDispatch (SoundValueEvent "SOUND_DETUNE" (VNumber 0))]
    /\ game_listeners (host w)
       = game_listeners g ++ [("ON_BLUR", HBlur); ("ON_FOCUS", HFocus)]
    /\ cache_json (host w) = cache_json g.
Proof.
  eexists. split; [apply initialize_run|].
  repeat (split; [reflexivity|]).
  split; [|by repeat split].
  split; [reflexivity|]. split; constructor.
Qed.

(** *** Blur and focus *)

Lemma assign_run f w :
  assign f w = (Ok tt, mkWorld (host w) (f (mgr w)) (heap w) (channels w) (trace w)).
Proof. reflexivity. Qed.

(** X2: [pauseOnBlur] is read when the signal comes.  Whatever was done
    to the manager before, once [pauseOnBlur] has been assigned [v], a
    blur signal calls [onBlur] once if [v] is truthy and does nothing if
    it is not, and a focus signal does the same with [onFocus]. *)
Theorem blur_focus_gated_by_pauseOnBlur
    (cache : gmap string json_entry) (ops : list op) (v : value) :
  let w := fst (run B (ops ++ [OpSetPauseOnBlur v])
                    (exec (initialize B) (blank (mkGame [] cache)), Tally 0 0)) in
  game_emit "ON_BLUR" w
  = (Ok tt, mkWorld (host w) (mgr w) (heap w) (channels w)
                    (trace w ++ if truthy v then [EOnBlur] else []))
  /\ game_emit "ON_FOCUS" w
     = (Ok tt, mkWorld (host w) (mgr w) (heap w) (channels w)
                       (trace w ++ if truthy v then [EOnFocus] else [])).
Proof.
  cbv zeta. rewrite run_snoc.
  destruct (run_host (mkGame [] cache) ops) as (Hhost & _).
  revert Hhost.
  generalize (run B ops (exec (initialize B) (blank (mkGame [] cache)), Tally 0 0)).
  intros [w c] Hhost. cbn [fst] in Hhost. unfold step. cbn [fst].
  unfold exec. rewrite assign_run. cbn [snd].
  split; (rewrite game_emit_run; [reflexivity|cbn [host]; by rewrite Hhost|auto]).
Qed.

(** *** What the controls never do *)

(** X3: the bulk controls, the writes of [rate] and [detune], the blur
    and focus signals and a sound's own signals never change the registry,
    the game or the manager's references to the game and to its event
    channel, never make a sound and never lose one, in whatever state the
    manager is and whether or not the call completes. *)
Theorem controls_leave_registry_alone (w : World) (v : value) (r : ref) (name : string) :
  quiet w (exec (pauseAll B) w)
  /\ quiet w (exec (resumeAll B) w)
  /\ quiet w (exec (stopAll B) w)
  /\ quiet w (exec (set_rate B v) w)
  /\ quiet w (exec (set_detune B v) w)
  /\ quiet w (exec (game_emit "ON_BLUR") w)
  /\ quiet w (exec (game_emit "ON_FOCUS") w)
  /\ quiet w (exec (sound_emit B r name) w).
Proof.
  split; [unfold pauseAll; apply calm_bulk|].
  split; [unfold resumeAll; apply calm_bulk|].
  split; [unfold stopAll; apply calm_bulk|].
  split; [apply calm_set_rate|]. split; [apply calm_set_detune|].
  split; [apply calm_game_emit|]. split; [apply calm_game_emit|].
  apply calm_sound_emit.
Qed.

(** *** After [destroy] *)

(** X4: after [destroy()] the manager is not usable.  [update], the bulk
    controls, [remove], [removeByKey] and a second [destroy] throw a
    [TypeError] and change nothing; a write of [rate] or [detune] stores
    the value and then throws, without an event. *)
Theorem use_after_destroy (w : World) (l : list ref) :
  registry w l -> is_Some (events (mgr w)) ->
  exists w',
    destroy B w = (Ok tt, w')
    /\ (forall t d, update B t d w' = (Throw TypeError, w'))
    /\ pauseAll B w' = (Throw TypeError, w')
    /\ resumeAll B w' = (Throw TypeError, w')
    /\ stopAll B w' = (Throw TypeError, w')
    /\ (forall sound, remove B sound w' = (Throw TypeError, w'))
    /\ (forall k, removeByKey B k w' = (Throw TypeError, w'))
    /\ (forall v, set_rate B v w'
                  = (Throw TypeError,
                     mkWorld (host w') (with_rate v (mgr w')) (heap w') (channels w')
                             (trace w')))
    /\ (forall v, set_detune B v w'
                  = (Throw TypeError,
                     mkWorld (host w') (with_detune v (mgr w')) (heap w') (channels w')
                             (trace w')))
    /\ destroy B w' = (Throw TypeError, w').
Proof.
  intros Hreg Hev. eexists. split; [by apply destroy_run|].
  repeat split; intros; reflexivity.
Qed.

(** *** [removeByKey] again *)

(** X5: [removeByKey(k)] on a registry where no sound has the key gives 0
    and changes nothing, calling no method.  So after one
    [removeByKey(k)] a second one gives 0 and changes nothing. *)
Theorem removeByKey_without_match (k : string) (w : World) (l : list ref) :
  registry w l ->
  ((forall r, r ∈ l -> keyed k (heap w) r = false) -> removeByKey B k w = (Ok 0, w))
  /\ exists n w', removeByKey B k w = (Ok n, w') /\ removeByKey B k w' = (Ok 0, w').
Proof.
  assert (Hnone : forall w l, registry w l ->
            (forall r, r ∈ l -> keyed k (heap w) r = false) ->
            removeByKey B k w = (Ok 0, w)).
  { clear w l. intros w l Hreg Hno. pose proof Hreg as (Hl & _).
    destruct (removeByKey_run k w l Hreg) as (h' & Hrun & Hother & _).
    assert (Hgone : List.filter (keyed k (heap w)) l = []).
    { clear -Hno. induction l as [|x l IH]; [done|]. simpl.
      rewrite (Hno x) by by left. apply IH. intros r Hr. apply Hno. by right. }
    assert (Hkept : List.filter (fun r => negb (keyed k (heap w) r)) l = l).
    { clear -Hno. induction l as [|x l IH]; [done|]. simpl.
      rewrite (Hno x) by by left. simpl. f_equal. apply IH. intros r Hr. apply Hno. by right. }
    rewrite Hgone in Hrun, Hother. rewrite Hkept in Hrun.
    assert (h' = heap w) as ->.
    { apply map_eq. intros r. apply Hother. by intros ?%elem_of_nil. }
    rewrite Hrun. simpl. rewrite app_nil_r, (with_sounds_id _ _ Hl). by destruct w. }
  intros Hreg. split; [by apply Hnone|]. pose proof Hreg as (Hl & Hnd & Hall).
  destruct (removeByKey_run k w l Hreg) as (h' & Hrun & Hother & _).
  eexists. eexists. split; [exact Hrun|].
  assert (Hstay : forall r, r ∈ List.filter (fun r => negb (keyed k (heap w) r)) l ->
                            h' !! r = heap w !! r /\ keyed k (heap w) r = false).
  { intros r Hr. apply elem_of_filter in Hr as [Hk Hr]. apply negb_true_iff in Hk.
    split; [|done]. apply Hother. intros Hg. apply elem_of_filter in Hg as [Hk' _].
    by rewrite Hk' in Hk. }
  eapply Hnone.
  - apply registry_kept; [done|]. intros r Hr Hk.
    destruct (Hstay r) as [-> _]; [by apply elem_of_filter|].
    by eapply Forall_forall in Hall.
  - intros r Hr. simpl. destruct (Hstay r Hr) as [Hh Hk].
    unfold keyed in *. by rewrite Hh.
Qed.

(** *** [addAudioSprite] *)


(** X7: for a key whose JSON is not in the cache, [addAudioSprite] and
    [playAudioSprite] throw a [TypeError] when they read the spritemap,
    after [add] has made the sound: the sound stays in the registry, with
    no spritemap, no marker, no subscription and no [play]. *)
Theorem sprite_without_json (k : string) (spriteName config : value) (w : World) (l : list ref) :
  registry w l ->
  is_Some (game (mgr w)) ->
  cache_json (host w) !! k = None ->
  let r := fresh (dom (heap w)) in
  let left c :=
    mkWorld (host w) (with_sounds (Some (l ++ [r])) (mgr w))
            (<[r := mkSound k false None (new_fields B (mgr w) k c)]> (heap w))
            (channels w) (trace w ++ [EAdd k c r]) in
  addAudioSprite B k config w = (Throw TypeError, left config)
  /\ playAudioSprite B k spriteName config w = (Throw TypeError, left VUndefined)
  /\ registry (left config) (l ++ [r])
  /\ registry (left VUndefined) (l ++ [r]).
Proof.
  intros Hreg [g Hg] He r left. pose proof Hreg as (Hl & _).
  assert (Hrun : forall c, addAudioSprite B k c w = (Throw TypeError, left c)).
  { intros c. unfold addAudioSprite. unfold bind at 1. rewrite (add_run k c w l Hl).
    unfold cache_get. mrun. rewrite Hg. mrun. by rewrite He. }
  split; [apply Hrun|]. split.
  - unfold playAudioSprite. unfold bind at 1. by rewrite Hrun.
  - split; by apply registry_grow.
Qed.

(** *** Fire and forget *)

Lemma ended_run r w s :
  channels w !! r = Some [("SOUND_ENDED", HDestroy r)] ->
  heap w !! r = Some s ->
  sound_emit B r "SOUND_ENDED" w
  = (Ok tt, mkWorld (host w) (mgr w) (<[r := hook B (mgr w) CDestroy s]> (heap w))
                    (<[r := []]> (channels w)) (trace w ++ [ECall r CDestroy])).
Proof.
  intros Hc Hs. unfold sound_emit. rewrite Hc. simpl. mrun. by rewrite Hs.
Qed.

Lemma filter_snoc_fresh (r : ref) (l : list ref) :
  r ∉ l -> List.filter (fun x => negb (Nat.eqb x r)) (l ++ [r]) = l.
Proof.
  intros Hr. rewrite List.filter_app. simpl. rewrite Nat.eqb_refl. simpl.
  rewrite app_nil_r. induction l as [|x l IH]; [done|].
  apply not_elem_of_cons in Hr as [Hne Hr]. simpl.
  destruct (Nat.eqb_spec x r) as [->|_]; [done|]. simpl. by rewrite IH.
Qed.

(** [play] and then the new sound's [SOUND_ENDED]. *)
Lemma play_then_ended k extra w l :
  registry w l -> channels w !! fresh (dom (heap w)) = None ->
  let r := fresh (dom (heap w)) in
  exists w1 s1,
    play B k extra w = (Ok tt, w1)
    /\ sound_emit B r "SOUND_ENDED" w1
       = (Ok tt, mkWorld (host w) (with_sounds (Some (l ++ [r])) (mgr w))
                         (<[r := hook B (with_sounds (Some (l ++ [r])) (mgr w)) CDestroy s1]>
                            (heap w1))
                         (<[r := []]> (channels w1))
                         (trace w ++ [EAdd k VUndefined r; EOnce r "SOUND_ENDED" (HDestroy r)]
                                  ++ play_calls r extra ++ [ECall r CDestroy]))
    /\ (forall x, x <> r -> heap w1 !! x = heap w !! x).
Proof.
  intros Hreg Hc r.
  destruct (play_run k extra w l Hreg) as (h' & Hrun & [s1 Hs1] & Hother).
  fold r in Hrun, Hs1, Hother, Hc.
  eexists. exists s1. split; [exact Hrun|]. split; [|done].
  rewrite (ended_run r _ s1); simpl; [|by rewrite Hc, lookup_insert_eq|done].
  by rewrite <- !app_assoc.
Qed.

(** X8: with a backend whose [destroy] raises [pendingRemove], a sound
    started with [play] cleans itself up: when it signals [SOUND_ENDED] it
    is destroyed, once, and stays registered until the next [update],
    which takes it out without ticking it and ticks the others. *)
Theorem fire_and_forget_cleans_up
    (k : string) (extra t d : value) (w : World) (l : list ref) :
  registry w l ->
  channels w !! fresh (dom (heap w)) = None ->
  (forall m s, pendingRemove (hook B m CDestroy s) = true) ->
  let r := fresh (dom (heap w)) in
  exists w1 w2 w3,
    play B k extra w = (Ok tt, w1)
    /\ sound_emit B r "SOUND_ENDED" w1 = (Ok tt, w2)
    /\ sounds (mgr w2) = Some (l ++ [r])
    /\ update B t d w2 = (Ok tt, w3)
    /\ sounds (mgr w3) = Some (List.filter (active (heap w)) l)
    /\ (r ∉ List.filter (active (heap w)) l)
    /\ trace w3 = trace w
                  ++ [EAdd k VUndefined r; EOnce r "SOUND_ENDED" (HDestroy r)]
                  ++ play_calls r extra
                  ++ [ECall r CDestroy]
                  ++ calls (CUpdate t d) (List.filter (active (heap w)) l).
Proof.
  intros Hreg Hc Hflag r. pose proof Hreg as (Hl & Hnd & Hall).
  pose proof (fresh_not_registered w l Hreg) as Hfresh. fold r in Hfresh.
  destruct (play_then_ended k extra w l Hreg Hc) as (w1 & s1 & Hplay & Hend & Hother).
  fold r in Hend, Hother.
  set (w2 := mkWorld _ _ _ _ _) in Hend.
  assert (Hreg2 : registry w2 (l ++ [r])).
  { split; [done|]. split.
    - apply NoDup_app. split; [done|]. split; [|apply NoDup_singleton].
      by intros x Hx ->%list_elem_of_singleton.
    - unfold w2. simpl. apply Forall_forall. intros x Hx.
      destruct (decide (x = r)) as [->|Hne]; [by rewrite lookup_insert_eq|].
      rewrite lookup_insert_ne, Hother by done.
      apply elem_of_app in Hx as [Hx|Hx%list_elem_of_singleton]; [|done].
      by eapply Forall_forall in Hall. }
  assert (Hkept : List.filter (active (heap w2)) (l ++ [r]) = List.filter (active (heap w)) l).
  { assert (Har : active (heap w2) r = false).
    { unfold active, w2. simpl. by rewrite lookup_insert_eq, Hflag. }
    rewrite List.filter_app.
    replace (List.filter (active (heap w2)) [r]) with (@nil ref)
      by (cbn [List.filter]; by rewrite Har).
    rewrite app_nil_r.
    apply (filter_ext_notin _ _ r); [done|]. intros x Hx. unfold active, w2. simpl.
    by rewrite lookup_insert_ne, Hother by done. }
  pose proof (update_run t d w2 (l ++ [r]) Hreg2) as Hup. cbv zeta in Hup.
  rewrite Hkept in Hup.
  exists w1, w2. eexists. split; [exact Hplay|]. split; [exact Hend|]. split; [done|].
  split; [exact Hup|]. split; [reflexivity|].
  split; [by intros [_ ?]%elem_of_filter|].
  unfold w2. cbn [trace]. by rewrite <- !app_assoc.
Qed.

(** X9: [remove] does not look at [pendingRemove].  A sound started with
    [play] that has signalled [SOUND_ENDED], and so has been destroyed, is
    destroyed a second time when it is removed before the next [update];
    the registry is then as it was before [play]. *)
Theorem remove_after_ended_destroys_again
    (k : string) (extra : value) (w : World) (l : list ref) :
  registry w l ->
  channels w !! fresh (dom (heap w)) = None ->
  let r := fresh (dom (heap w)) in
  exists w1 w2 w3,
    play B k extra w = (Ok tt, w1)
    /\ sound_emit B r "SOUND_ENDED" w1 = (Ok tt, w2)
    /\ remove B r w2 = (Ok true, w3)
    /\ sounds (mgr w3) = Some l
    /\ trace w3 = trace w
                  ++ [EAdd k VUndefined r; EOnce r "SOUND_ENDED" (HDestroy r)]
                  ++ play_calls r extra
                  ++ [ECall r CDestroy; ECall r CDestroy].
Proof.
  intros Hreg Hc r. pose proof Hreg as (Hl & Hnd & Hall).
  pose proof (fresh_not_registered w l Hreg) as Hfresh. fold r in Hfresh.
  destruct (play_then_ended k extra w l Hreg Hc) as (w1 & s1 & Hplay & Hend & Hother).
  fold r in Hend, Hother.
  set (w2 := mkWorld _ _ _ _ _) in Hend.
  assert (Hreg2 : registry w2 (l ++ [r])).
  { split; [done|]. split.
    - apply NoDup_app. split; [done|]. split; [|apply NoDup_singleton].
      by intros x Hx ->%list_elem_of_singleton.
    - unfold w2. simpl. apply Forall_forall. intros x Hx.
      destruct (decide (x = r)) as [->|Hne]; [by rewrite lookup_insert_eq|].
      rewrite lookup_insert_ne, Hother by done.
      apply elem_of_app in Hx as [Hx|Hx%list_elem_of_singleton]; [|done].
      by eapply Forall_forall in Hall. }
  exists w1, w2. eexists. split; [exact Hplay|]. split; [exact Hend|].
  split.
  { eapply (remove_run_in r w2 (l ++ [r])); [done| |].
    - apply elem_of_app. right. by apply list_elem_of_singleton.
    - unfold w2. simpl. apply lookup_insert_eq. }
  simpl. rewrite filter_snoc_fresh by done. split; [done|].
  rewrite <- !app_assoc. simpl. by rewrite <- !app_assoc.
Qed.

End Proofs.

(** ** The sample worlds *)

Ltac registry_by_compute :=
  split; [by vm_compute|];
  split; [compute_done|];
  repeat (constructor; [eexists; vm_compute; reflexivity|]); constructor.



(** C9, as stated, fails: a blur signal that comes after [destroy()] still
    calls [onBlur]. *)
Lemma blur_after_destroy_calls_onBlur :
  let w := exec (initialize demo_backend ;; destroy demo_backend) (blank demo_game) in
  fst ((initialize demo_backend ;; destroy demo_backend) (blank demo_game)) = Ok tt
  /\ sounds (mgr w) = None
  /\ game_emit "ON_BLUR" w
     = (Ok tt, mkWorld (host w) (mgr w) (heap w) (channels w) (trace w ++ [EOnBlur])).
Proof. by vm_compute. Qed.

(** C7, as stated, fails: an [extra] that has a [name] field holding the
    empty string is handed to [play] as a config; no marker is added. *)
Lemma play_with_empty_name_adds_no_marker :
  let extra := VObject [("name", VString "")] in
  has_prop extra "name" = true
  /\ fst (play demo_backend "sfx" extra demo_new) = Ok tt
  /\ trace (exec (play demo_backend "sfx" extra) demo_new)
     = trace demo_new ++ [EAdd "sfx" VUndefined 0;
                          EOnce 0 "SOUND_ENDED" (HDestroy 0);
                          ECall 0 (CPlay [extra])].
Proof. by vm_compute. Qed.


Lemma rate_detune_write_witness :
  registry demo_world [0; 1; 2]
  /\ exists w', set_rate demo_backend (VNumber 2) demo_world = (Ok tt, w')
       /\ get_rate w' = (Ok (VNumber 2), w')
       /\ trace w' = trace demo_world
                      ++ [ECall 0 CSetRate; ECall 2 CSetRate;
                          EDispatch (SoundValueEvent "SOUND_RATE" (VNumber 2))].
Proof.
  assert (Hreg : registry demo_world [0; 1; 2]) by registry_by_compute.
  split; [exact Hreg|].
  destruct (rate_detune_write demo_backend (VNumber 2) demo_world [0; 1; 2] Hreg)
    as [(w' & Hrun & Hget & _ & _ & Htr) _]; [eexists; vm_compute; reflexivity|].
  exists w'. split; [exact Hrun|]. split; [exact Hget|]. exact Htr.
Defined.

Lemma update_reaps_then_ticks_witness :
  registry demo_added [0; 1; 2]
  /\ exists w' w'' l'',
       update demo_backend (VNumber 0) (VNumber 16) demo_added = (Ok tt, w')
       /\ registry w' [0; 1; 2]
       /\ trace w' = trace demo_added
                      ++ calls (CUpdate (VNumber 0) (VNumber 16)) [0; 1; 2]
       /\ update demo_backend (VNumber 16) (VNumber 16) w' = (Ok tt, w'')
       /\ registry w'' l'' /\ (1 ∉ l'')
       /\ trace w'' = trace w' ++ calls (CUpdate (VNumber 16) (VNumber 16)) l''.
Proof.
  assert (Hreg : registry demo_added [0; 1; 2]) by registry_by_compute.
  split; [exact Hreg|].
  destruct (update_reaps_then_ticks demo_backend (VNumber 0) (VNumber 16)
              demo_added [0; 1; 2] Hreg) as (w' & Hrun & Hreg' & Htr & _ & Hself).
  destruct (Hself 1 (mkSound "gone" false None [("config", VUndefined)])
              (VNumber 16) (VNumber 16))
    as (_ & w'' & l'' & Hrun2 & Hreg2 & Hout & Htr2);
    [compute_done|by vm_compute|reflexivity|reflexivity|].
  exists w', w'', l''. repeat (split; [assumption|]). assumption.
Defined.

Lemma bulk_controls_witness :
  registry demo_world [0; 1; 2]
  /\ exists w', pauseAll demo_backend demo_world = (Ok tt, w')
       /\ trace w' = trace demo_world
                      ++ [ECall 0 CPause; ECall 2 CPause; EDispatch (SoundEvent "SOUND_PAUSE")].
Proof.
  assert (Hreg : registry demo_world [0; 1; 2]) by registry_by_compute.
  split; [exact Hreg|].
  destruct (bulk_controls demo_backend demo_world [0; 1; 2] Hreg)
    with (op := pauseAll demo_backend) (c := CPause) (name := "SOUND_PAUSE")
    as (w' & Hrun & _ & _ & Htr & _); [eexists; vm_compute; reflexivity|by left|].
  exists w'. split; [exact Hrun|exact Htr].
Defined.

Lemma removeByKey_removes_matches_witness :
  registry demo_world [0; 1; 2]
  /\ exists w', removeByKey demo_backend "gone" demo_world = (Ok 1, w')
       /\ registry w' [0; 2]
       /\ trace w' = trace demo_world ++ [ECall 1 CDestroy].
Proof.
  assert (Hreg : registry demo_world [0; 1; 2]) by registry_by_compute.
  split; [exact Hreg|].
  destruct (removeByKey_removes_matches demo_backend "gone" demo_world [0; 1; 2] Hreg)
    as [(w' & Hrun & Hreg' & Htr & _) _].
  exists w'. split; [exact Hrun|]. split; [exact Hreg'|exact Htr].
Defined.

Lemma remove_sound_witness :
  registry demo_world [0; 1; 2]
  /\ (exists w', remove demo_backend 2 demo_world = (Ok true, w')
        /\ registry w' [0; 1]
        /\ remove demo_backend 2 w' = (Ok false, w'))
  /\ remove demo_backend 7 demo_world = (Ok false, demo_world).
Proof.
  assert (Hreg : registry demo_world [0; 1; 2]) by registry_by_compute.
  split; [exact Hreg|].
  destruct (remove_sound demo_backend 2 demo_world [0; 1; 2] Hreg) as [Hin _].
  destruct (remove_sound demo_backend 7 demo_world [0; 1; 2] Hreg) as [_ Hout].
  destruct Hin as (s & w' & _ & Hrun & _ & _ & Hreg' & _ & Hagain); [compute_done|].
  split; [|apply Hout; compute_done].
  exists w'. split; [exact Hrun|]. split; [exact Hreg'|exact Hagain].
Defined.


Lemma play_fire_and_forget_witness :
  let extra := VObject [("name", VString "jump"); ("start", VNumber 0);
                        ("duration", VNumber 1.5)] in
  registry demo_new []
  /\ exists w' w1,
       play demo_backend "sfx" extra demo_new = (Ok tt, w')
       /\ trace w' = trace demo_new
                      ++ [EAdd "sfx" VUndefined 0; EOnce 0 "SOUND_ENDED" (HDestroy 0);
                          ECall 0 (CAddMarker extra); ECall 0 (CPlay [VString "jump"])]
       /\ sound_emit demo_backend 0 "SOUND_ENDED" w' = (Ok tt, w1)
       /\ trace w1 = trace w' ++ [ECall 0 CDestroy]
       /\ sound_emit demo_backend 0 "SOUND_ENDED" w1 = (Ok tt, w1).
Proof.
  intros extra.
  assert (Hreg : registry demo_new []) by registry_by_compute.
  split; [exact Hreg|].
  destruct (play_fire_and_forget demo_backend "sfx" extra demo_new [] Hreg)
    as (w' & tail & Hrun & _ & _ & Htr & Hmarker & _ & _ & _ & w1 & Hend & Htr1 & _ & Hagain);
    [reflexivity|].
  exists w', w1. split; [exact Hrun|].
  split; [rewrite Htr, Hmarker by reflexivity; reflexivity|].
  split; [exact Hend|]. split; [exact Htr1|exact Hagain].
Defined.


Lemma use_after_destroy_witness :
  registry demo_world [0; 1; 2]
  /\ exists w',
       destroy demo_backend demo_world = (Ok tt, w')
       /\ update demo_backend (VNumber 32) (VNumber 16) w' = (Throw TypeError, w')
       /\ pauseAll demo_backend w' = (Throw TypeError, w')
       /\ remove demo_backend 0 w' = (Throw TypeError, w')
       /\ destroy demo_backend w' = (Throw TypeError, w').
Proof.
  assert (Hreg : registry demo_world [0; 1; 2]) by registry_by_compute.
  split; [exact Hreg|].
  destruct (use_after_destroy demo_backend demo_world [0; 1; 2] Hreg)
    as (w' & Hrun & Hupdate & Hpause & _ & _ & Hremove & _ & _ & _ & Hagain);
    [eexists; vm_compute; reflexivity|].
  exists w'. split; [exact Hrun|]. split; [apply Hupdate|]. split; [exact Hpause|].
  split; [apply Hremove|exact Hagain].
Defined.

Lemma removeByKey_without_match_witness :
  registry demo_world [0; 1; 2]
  /\ removeByKey demo_backend "c" demo_world = (Ok 0, demo_world)
  /\ exists n w', removeByKey demo_backend "a" demo_world = (Ok n, w')
               /\ removeByKey demo_backend "a" w' = (Ok 0, w').
Proof.
  assert (Hreg : registry demo_world [0; 1; 2]) by registry_by_compute.
  split; [exact Hreg|].
  destruct (removeByKey_without_match demo_backend "c" demo_world [0; 1; 2] Hreg)
    as [Hnone _].
  destruct (removeByKey_without_match demo_backend "a" demo_world [0; 1; 2] Hreg)
    as [_ Htwice].
  split; [|exact Htwice].
  apply Hnone. apply Forall_forall.
  repeat (constructor; [vm_compute; reflexivity|]). constructor.
Defined.


Lemma sprite_without_json_witness :
  registry demo_new []
  /\ fst (addAudioSprite demo_backend "music" VUndefined demo_new) = Throw TypeError
  /\ registry (exec (addAudioSprite demo_backend "music" VUndefined) demo_new) [0]
  /\ fst (playAudioSprite demo_backend "music" (VString "intro") VUndefined demo_new)
     = Throw TypeError.
Proof.
  assert (Hreg : registry demo_new []) by registry_by_compute.
  split; [exact Hreg|].
  destruct (sprite_without_json demo_backend "music" (VString "intro") VUndefined
              demo_new [] Hreg)
    as (Hadd & Hplay & Hreg' & _);
    [eexists; vm_compute; reflexivity|by vm_compute|].
  unfold exec. rewrite Hadd, Hplay. split; [reflexivity|]. split; [exact Hreg'|reflexivity].
Defined.

Lemma fire_and_forget_cleans_up_witness :
  registry demo_new []
  /\ exists w1 w2 w3,
       play demo_backend "sfx" VUndefined demo_new = (Ok tt, w1)
       /\ sound_emit demo_backend 0 "SOUND_ENDED" w1 = (Ok tt, w2)
       /\ sounds (mgr w2) = Some [0]
       /\ update demo_backend (VNumber 0) (VNumber 16) w2 = (Ok tt, w3)
       /\ sounds (mgr w3) = Some [].
Proof.
  assert (Hreg : registry demo_new []) by registry_by_compute.
  split; [exact Hreg|].
  destruct (fire_and_forget_cleans_up demo_backend "sfx" VUndefined (VNumber 0) (VNumber 16)
              demo_new [] Hreg)
    as (w1 & w2 & w3 & Hplay & Hend & Hs2 & Hup & Hs3 & _);
    [reflexivity|reflexivity|].
  exists w1, w2, w3. repeat (split; [assumption|]). assumption.
Defined.

Lemma remove_after_ended_destroys_again_witness :
  registry demo_new []
  /\ exists w1 w2 w3,
       play demo_backend "sfx" VUndefined demo_new = (Ok tt, w1)
       /\ sound_emit demo_backend 0 "SOUND_ENDED" w1 = (Ok tt, w2)
       /\ remove demo_backend 0 w2 = (Ok true, w3)
       /\ sounds (mgr w3) = Some []
       /\ trace w3 = trace demo_new
                     ++ [EAdd "sfx" VUndefined 0; EOnce 0 "SOUND_ENDED" (HDestroy 0);
                         ECall 0 (CPlay []); ECall 0 CDestroy; ECall 0 CDestroy].
Proof.
  assert (Hreg : registry demo_new []) by registry_by_compute.
  split; [exact Hreg|].
  destruct (remove_after_ended_destroys_again demo_backend "sfx" VUndefined demo_new []
              Hreg)
    as (w1 & w2 & w3 & Hplay & Hend & Hrem & Hs3 & Htr); [reflexivity|].
  exists w1, w2, w3. repeat (split; [assumption|]). assumption.
Defined.
